(** * oldcitylaundry: the page script [assets/js/main.js]

    A shallow embedding of the page script and the properties of its
    handlers.  The script only talks to the browser, so the development
    has two layers:

    - a small model of the host (the page's elements, their class lists,
      markup, registered listeners and the event being dispatched), and
    - the script's functions, written one to one against that model in a
      state-and-exception monad.

    Conventions of the host model:
    - pixel quantities ([scrollY], [offsetTop], [offsetHeight]) are
      integers;
    - the answer of a selector query and the geometry of an element are
      given by the page and are not changed by the class markers the
      script toggles;
    - a query with a string that is not a selector throws a
      [SyntaxError]; the selectors built from identifiers, [#id],
      [.class] and the descendant and child combinators are recognised
      here, and the page says which other strings its host accepts; the
      empty string, and a string that starts with a [#] not followed by
      the start of an identifier, are selectors on no host;
    - the strings the script trims are its own ASCII literals and URL
      fragments, which are percent-encoded ASCII, so [trim] is given on
      the ASCII white space;
    - a class list is a finite set of tokens;
    - [innerHTML] is kept as the markup text that was assigned; the
      browser's getter serialises the parsed children again, which can
      change the text (the quotes around attribute values) but not the
      elements read from it, and the properties here are about those
      elements;
    - an event dispatched at an element stands for any event whose path
      reaches the listeners of that element;
    - the widget libraries (Isotope, Swiper, GLightbox) are outside the
      script: a call into them is recorded, and the page says whether it
      throws. *)

From Stdlib Require Import ZArith Ascii String List Bool Lia DecimalString DecimalNat.
From stdpp Require Import base decidable option list strings gmap.

Local Open Scope Z_scope.

(** ** The host: elements, events, effects *)

(** Elements are handles into the page. *)
Definition Node := nat.

Inductive Exn :=
| TypeError (msg : string)      (* property access on [null] or [undefined] *)
| SyntaxError (sel : string)    (* a query with a string that is no selector *)
| WidgetError (msg : string).   (* raised inside a third-party constructor *)

Inductive Result (A : Type) :=
| Ok (a : A)
| Throw (e : Exn).
Arguments Ok {A} a.
Arguments Throw {A} e.

Inductive EventType := Click | Scroll | Load.

Inductive Target :=
| Window
| Elem (n : Node).

#[global] Instance EventType_eq_dec : EqDecision EventType.
Proof. solve_decision. Defined.
#[global] Instance Target_eq_dec : EqDecision Target.
Proof. solve_decision. Defined.

(** The event object, with the two flags the DOM standard consults in
    [preventDefault]. *)
Record Event := mkEvent {
  cancelable : bool;
  inPassiveListener : bool;
  canceled : bool
}.

(** The option object both [Swiper] constructions receive. *)
Record SwiperOptions := mkSwiperOptions {
  speed : Z;
  loop : bool;
  autoplay_delay : Z;
  autoplay_disableOnInteraction : bool;
  slidesPerView : string;
  pagination_el : string;
  pagination_type : string;
  pagination_clickable : bool
}.

Inductive Initializer :=
| InitNavbar
| InitScrollFunctions
| InitCarouselIndicators
| InitMenuIsotope
| InitSwipers
| InitGLightbox.

(** What the script does to the world outside the class lists: calls
    into the window and into the widget libraries.  [Enter] and
    [EnterScrollTo] record that a function of the script was entered. *)
Inductive Effect :=
| Enter (i : Initializer)
| EnterScrollTo (el : string)
| WindowScrollTo (top : Z) (behavior : string)
| NewIsotope (container : Node) (itemSelector layoutMode : string)
| IsotopeArrange (filter : option string)
| NewSwiper (container : string) (opts : SwiperOptions)
| GLightbox (selector : string)
| ReportError (e : Exn).        (* an exception that escaped a listener *)

(** The closures the script registers as listeners.  A closure that
    captures a variable of its defining scope carries it. *)
Inductive Handler :=
| MobileNavToggleClick
| DropdownClick
| ScrolltoClick
| NavbarlinksActive (navbarlinks : list Node)
| HeaderScrolled
| ToggleBacktotop
| MenuFilterClick (menuFilters : list Node)
| OnLoad.

Record Listener := mkListener {
  l_target : Target;
  l_type : EventType;
  l_handler : Handler;
  l_passive : bool
}.

(** The part of the page the script reads but never writes.
    [getElementById] is not called by the script: it says which element
    a URL fragment points at. *)
Record Page := mkPage {
  querySelectorAll : string -> list Node;     (* matches, in document order *)
  other_selector : string -> bool;            (* further selectors of the host *)
  getElementById : string -> option Node;
  hash : Node -> option string;               (* [None]: no such property *)
  offsetTop : Node -> Z;
  offsetHeight : Node -> Z;
  nextElementSibling : Node -> option Node;
  getAttribute : Node -> string -> option string;
  location_hash : string;
  widget_fails : Effect -> option Exn         (* does this widget call throw? *)
}.

(** *** Selectors

    A selector query parses its argument first.  The selectors made of
    type, [#id] and [.class] selectors, joined by the descendant and the
    child combinator, are recognised by [simple_selector]; identifiers
    are ASCII and start with a letter or an underscore, after at most
    one hyphen.  This covers every selector the script writes down and
    the fragments that name an element by such an identifier. *)

Inductive SelectorState :=
| CompoundStart                 (* at the start, or after [>] *)
| AfterMark                     (* after [#] or [.] *)
| AfterHyphen                   (* after the hyphen that starts an identifier *)
| InIdent
| AfterSpace                    (* white space after a compound selector *)
| NoSelector.

Definition is_digit (c : ascii) : bool :=
  let n := nat_of_ascii c in (48 <=? n)%nat && (n <=? 57)%nat.

Definition is_alpha (c : ascii) : bool :=
  let n := nat_of_ascii c in
  ((65 <=? n)%nat && (n <=? 90)%nat) || ((97 <=? n)%nat && (n <=? 122)%nat).

Definition ident_start (c : ascii) : bool := is_alpha c || Ascii.eqb c "_".

Definition ident_char (c : ascii) : bool :=
  is_alpha c || is_digit c || Ascii.eqb c "_" || Ascii.eqb c "-".

(** CSS white space: space, tab, line feed, form feed, carriage return. *)
Definition css_space (c : ascii) : bool :=
  let n := nat_of_ascii c in
  (n =? 32)%nat || (n =? 9)%nat || (n =? 10)%nat || (n =? 12)%nat || (n =? 13)%nat.

Definition is_mark (c : ascii) : bool := Ascii.eqb c "#" || Ascii.eqb c ".".

(** The start of a compound selector. *)
Definition compound_step (c : ascii) : SelectorState :=
  if ident_start c then InIdent
  else if Ascii.eqb c "-" then AfterHyphen
  else if is_mark c then AfterMark
  else NoSelector.

Definition selector_step (st : SelectorState) (c : ascii) : SelectorState :=
  match st with
  | CompoundStart =>
      if css_space c then CompoundStart else compound_step c
  | AfterMark =>
      if ident_start c then InIdent
      else if Ascii.eqb c "-" then AfterHyphen
      else NoSelector
  | AfterHyphen =>
      if ident_start c then InIdent else NoSelector
  | InIdent =>
      if ident_char c then InIdent
      else if is_mark c then AfterMark
      else if css_space c then AfterSpace
      else if Ascii.eqb c ">" then CompoundStart
      else NoSelector
  | AfterSpace =>
      if css_space c then AfterSpace
      else if Ascii.eqb c ">" then CompoundStart
      else compound_step c
  | NoSelector => NoSelector
  end.

Fixpoint selector_run (st : SelectorState) (s : string) : SelectorState :=
  match s with
  | EmptyString => st
  | String c s' => selector_run (selector_step st c) s'
  end.

Definition simple_selector (s : string) : bool :=
  match s with
  | EmptyString => false
  | String c s' =>
      match selector_run (compound_step c) s' with
      | InIdent => true
      | _ => false
      end
  end.

Definition backslash : ascii := ascii_of_nat 92.

(** Strings that are selectors on no host: the empty string, and a [#]
    that is not followed by the start of an identifier (a letter, an
    underscore, a hyphen, an escape, or a character outside ASCII, for
    which the null character is taken). *)
Definition not_a_selector (s : string) : bool :=
  match s with
  | EmptyString => true
  | String "#" EmptyString => true
  | String "#" (String c _) =>
      let n := nat_of_ascii c in
      (0 <? n)%nat && (n <? 128)%nat
      && negb (ident_start c || Ascii.eqb c "-" || Ascii.eqb c backslash)
  | _ => false
  end.

(** The strings a query accepts on the page [p]. *)
Definition valid_selector (p : Page) (sel : string) : bool :=
  negb (not_a_selector sel) && (simple_selector sel || other_selector p sel).

(** What [document.querySelector(sel)] returns: the first match, when
    [sel] is a selector and matches. *)
Definition querySelector (p : Page) (sel : string) : option Node :=
  if valid_selector p sel then head (querySelectorAll p sel) else None.

Record World := mkWorld {
  page : Page;
  scrollY : Z;
  classList : Node -> gset string;
  innerHTML : Node -> string;
  listeners : list Listener;
  event : Event;
  effects : list Effect
}.

Definition set_classList (f : Node -> gset string) (w : World) : World :=
  mkWorld (page w) (scrollY w) f (innerHTML w) (listeners w) (event w) (effects w).
Definition set_innerHTML (f : Node -> string) (w : World) : World :=
  mkWorld (page w) (scrollY w) (classList w) f (listeners w) (event w) (effects w).
Definition set_listeners (ls : list Listener) (w : World) : World :=
  mkWorld (page w) (scrollY w) (classList w) (innerHTML w) ls (event w) (effects w).
Definition set_event (e : Event) (w : World) : World :=
  mkWorld (page w) (scrollY w) (classList w) (innerHTML w) (listeners w) e (effects w).
Definition set_effects (es : list Effect) (w : World) : World :=
  mkWorld (page w) (scrollY w) (classList w) (innerHTML w) (listeners w) (event w) es.

(** Update of a per-element store at one element. *)
Definition upd {A} (f : Node -> A) (n : Node) (a : A) : Node -> A :=
  fun m => if decide (m = n) then a else f m.

(** ** The monad: state that survives an exception *)

Definition M (A : Type) := World -> World * Result A.

Definition ret {A} (a : A) : M A := fun w => (w, Ok a).
Definition bind {A B} (m : M A) (f : A -> M B) : M B := fun w =>
  match m w with
  | (w', Ok a) => f a w'
  | (w', Throw e) => (w', Throw e)
  end.
Definition throw {A} (e : Exn) : M A := fun w => (w, Throw e).

Declare Scope js_scope.
Delimit Scope js_scope with js.
Bind Scope js_scope with M.
Notation "x <- m ;; k" := (bind m (fun x => k))
  (at level 100, m at next level, k at level 200, right associativity) : js_scope.
Notation "m ;; k" := (bind m (fun _ => k))
  (at level 100, k at level 200, right associativity) : js_scope.
Local Open Scope js_scope.

Definition gets {A} (f : World -> A) : M A := fun w => (w, Ok (f w)).
Definition modify (f : World -> World) : M unit := fun w => (f w, Ok tt).

Definition emit (e : Effect) : M unit :=
  modify (fun w => set_effects (effects w ++ [e]) w).

(** [xs.forEach((x, index) => ...)] *)
Fixpoint forEach_from {A} (index : nat) (xs : list A) (f : A -> nat -> M unit) : M unit :=
  match xs with
  | [] => ret tt
  | x :: xs' => f x index ;; forEach_from (S index) xs' f
  end.
Definition forEach {A} (xs : list A) (f : A -> nat -> M unit) : M unit :=
  forEach_from 0 xs f.

(** *** Class lists *)

Definition classList_add (n : Node) (c : string) : M unit :=
  modify (fun w => set_classList (upd (classList w) n ({[c]} ∪ classList w n)) w).
Definition classList_remove (n : Node) (c : string) : M unit :=
  modify (fun w => set_classList (upd (classList w) n (classList w n ∖ {[c]})) w).
Definition classList_contains (n : Node) (c : string) : M bool :=
  gets (fun w => bool_decide (c ∈ classList w n)).
Definition classList_toggle (n : Node) (c : string) : M unit :=
  b <- classList_contains n c ;;
  if b then classList_remove n c else classList_add n c.

(** *** Events *)

(** DOM standard: [preventDefault] sets the canceled flag only when the
    event is cancelable and is not being delivered to a passive
    listener. *)
Definition preventDefault : M unit :=
  modify (fun w =>
    let e := event w in
    if cancelable e && negb (inPassiveListener e)
    then set_event (mkEvent (cancelable e) (inPassiveListener e) true) w
    else w).

Definition addEventListener (t : Target) (ty : EventType) (h : Handler) (passive : bool) : M unit :=
  modify (fun w => set_listeners (listeners w ++ [mkListener t ty h passive]) w).

(** A call into a widget library: it happens, and may throw. *)
Definition widget (call : Effect) : M unit :=
  emit call ;;
  failure <- gets (fun w => widget_fails (page w) call) ;;
  match failure with
  | Some e => throw e
  | None => ret tt
  end.

(** [String.prototype.trim], on the ASCII white space characters
    ([Ascii.is_space]: tab, line feed, vertical tab, form feed, carriage
    return and space). *)
Fixpoint trimStart (s : string) : string :=
  match s with
  | String c s' => if Ascii.is_space c then trimStart s' else s
  | EmptyString => EmptyString
  end.

Fixpoint trimEnd (s : string) : string :=
  match s with
  | String c s' =>
      match trimEnd s' with
      | EmptyString => if Ascii.is_space c then EmptyString else String c EmptyString
      | t => String c t
      end
  | EmptyString => EmptyString
  end.

Definition trim (s : string) : string := trimEnd (trimStart s).

(** ** The script *)

Module selectors.
Definition navbar : string := "#navbar".
Definition header : string := "#header".
Definition topbar : string := "#topbar".
Definition backToTop : string := ".back-to-top".
Definition heroCarousel : string := "#heroCarousel".
Definition menuContainer : string := ".menu-container".
Definition mobileNavToggle : string := ".mobile-nav-toggle".
End selectors.

(** [select(el)]: the first match, or [null]; a [SyntaxError] when the
    trimmed string is not a selector. *)
Definition select (el : string) : M (option Node) :=
  let el := trim el in
  valid <- gets (fun w => valid_selector (page w) el) ;;
  if valid then gets (fun w => querySelector (page w) el)
  else throw (SyntaxError el).

(** [select(el, true)]: all matches, as an array. *)
Definition select_all (el : string) : M (list Node) :=
  let el := trim el in
  valid <- gets (fun w => valid_selector (page w) el) ;;
  if valid then gets (fun w => querySelectorAll (page w) el)
  else throw (SyntaxError el).

(** [on(type, el, listener, all)]: every listener is registered with
    [{ passive: true }].  An empty array is not falsy, so with [all] the
    early return is never taken.  A [SyntaxError] of the query
    propagates. *)
Definition on (type : EventType) (el : string) (listener : Handler) (all : bool) : M unit :=
  if all then
    selectEl <- select_all el ;;
    forEach selectEl (fun e _ => addEventListener (Elem e) type listener true)
  else
    selectEl <- select el ;;
    match selectEl with
    | None => ret tt
    | Some e => addEventListener (Elem e) type listener true
    end.

(** The script's [scrollTo(el)]; the window's method of the same name is
    the [WindowScrollTo] effect. *)
Definition scrollTo (el : string) : M unit :=
  emit (EnterScrollTo el) ;;
  header <- select "#header" ;;
  match header with
  | None => throw (TypeError "header.offsetHeight")
  | Some header =>
      offset <- gets (fun w => offsetHeight (page w) header) ;;
      target <- select el ;;
      match target with
      | None => throw (TypeError "select(el).offsetTop")
      | Some target =>
          elementPos <- gets (fun w => offsetTop (page w) target) ;;
          emit (WindowScrollTo (elementPos - offset) "smooth")
      end
  end.

(** *** Listeners of [initNavbar] *)

Definition mobileNavToggle_click (this : Node) : M unit :=
  navbar <- select selectors.navbar ;;
  match navbar with
  | None => throw (TypeError "select(selectors.navbar).classList")
  | Some navbar =>
      classList_toggle navbar "navbar-mobile" ;;
      classList_toggle this "bi-list" ;;
      classList_toggle this "bi-x"
  end.

Definition dropdown_click (this : Node) : M unit :=
  navbar <- select selectors.navbar ;;
  match navbar with
  | None => throw (TypeError "select(selectors.navbar).classList")
  | Some navbar =>
      mobile <- classList_contains navbar "navbar-mobile" ;;
      if mobile then
        preventDefault ;;
        sibling <- gets (fun w => nextElementSibling (page w) this) ;;
        match sibling with
        | None => throw (TypeError "this.nextElementSibling.classList")
        | Some sibling => classList_toggle sibling "dropdown-active"
        end
      else ret tt
  end.

Definition scrollto_click (this : Node) : M unit :=
  h <- gets (fun w => hash (page w) this) ;;
  match h with
  | None => throw (TypeError "el.trim")
  | Some h =>
      target <- select h ;;
      match target with
      | Some _ => preventDefault ;; scrollTo h
      | None => ret tt
      end
  end.

Definition initNavbar : M unit :=
  emit (Enter InitNavbar) ;;
  on Click ".mobile-nav-toggle" MobileNavToggleClick false ;;
  on Click ".navbar .dropdown > a" DropdownClick true ;;
  on Click ".scrollto" ScrolltoClick true.

(** *** Listeners of [initScrollFunctions] *)

Definition navbarlinksActive (navbarlinks : list Node) : M unit :=
  y <- gets scrollY ;;
  let position := y + 200 in
  forEach navbarlinks (fun navbarlink _ =>
    h <- gets (fun w => hash (page w) navbarlink) ;;
    match h with
    | None | Some EmptyString => ret tt
    | Some h =>
        section <- select h ;;
        match section with
        | None => ret tt
        | Some section =>
            top <- gets (fun w => offsetTop (page w) section) ;;
            height <- gets (fun w => offsetHeight (page w) section) ;;
            if (position >=? top) && (position <=? top + height)
            then classList_add navbarlink "active"
            else classList_remove navbarlink "active"
        end
    end).

Definition headerScrolled : M unit :=
  selectHeader <- select selectors.header ;;
  selectTopbar <- select selectors.topbar ;;
  y <- gets scrollY ;;
  if y >? 100 then
    match selectHeader with
    | Some h => classList_add h "header-scrolled"
    | None => ret tt
    end ;;
    match selectTopbar with
    | Some t => classList_add t "topbar-scrolled"
    | None => ret tt
    end
  else
    match selectHeader with
    | Some h => classList_remove h "header-scrolled"
    | None => ret tt
    end ;;
    match selectTopbar with
    | Some t => classList_remove t "topbar-scrolled"
    | None => ret tt
    end.

Definition toggleBacktotop : M unit :=
  backtotop <- select selectors.backToTop ;;
  match backtotop with
  | None => ret tt
  | Some backtotop =>
      y <- gets scrollY ;;
      if y >? 100
      then classList_add backtotop "active"
      else classList_remove backtotop "active"
  end.

Definition initScrollFunctions : M unit :=
  emit (Enter InitScrollFunctions) ;;
  navbarlinks <- select_all "#navbar .scrollto" ;;
  addEventListener Window Scroll (NavbarlinksActive navbarlinks) true ;;
  addEventListener Window Scroll HeaderScrolled true ;;
  addEventListener Window Scroll ToggleBacktotop true.

(** *** Carousel indicators *)

(** The template literal's [${index}]: the index in decimal. *)
Definition toString (index : nat) : string :=
  NilEmpty.string_of_uint (Nat.to_uint index).

Definition indicator (index : nat) : string :=
  if (index =? 0)%nat
  then "<li data-bs-target='#heroCarousel' data-bs-slide-to='" +:+ toString index +:+ "' class='active'></li>"
  else "<li data-bs-target='#heroCarousel' data-bs-slide-to='" +:+ toString index +:+ "'></li>".

(** [n.innerHTML += markup] *)
Definition innerHTML_append (n : Node) (markup : string) : M unit :=
  modify (fun w => set_innerHTML (upd (innerHTML w) n (innerHTML w n +:+ markup)) w).

Definition initCarouselIndicators : M unit :=
  emit (Enter InitCarouselIndicators) ;;
  heroCarouselIndicators <- select "#hero-carousel-indicators" ;;
  heroCarouselItems <- select_all "#heroCarousel .carousel-item" ;;
  forEach heroCarouselItems (fun item index =>
    let indicator := indicator index in
    match heroCarouselIndicators with
    | None => throw (TypeError "heroCarouselIndicators.innerHTML")
    | Some host => innerHTML_append host indicator
    end).

(** *** Menu filter *)

Definition menuFilter_click (menuFilters : list Node) (this : Node) : M unit :=
  preventDefault ;;
  forEach menuFilters (fun el _ => classList_remove el "filter-active") ;;
  classList_add this "filter-active" ;;
  filter <- gets (fun w => getAttribute (page w) this "data-filter") ;;
  widget (IsotopeArrange filter).

Definition initMenuIsotope : M unit :=
  emit (Enter InitMenuIsotope) ;;
  menuContainer <- select selectors.menuContainer ;;
  match menuContainer with
  | None => ret tt
  | Some menuContainer =>
      widget (NewIsotope menuContainer ".menu-item" "fitRows") ;;
      menuFilters <- select_all "#menu-flters li" ;;
      on Click "#menu-flters li" (MenuFilterClick menuFilters) true
  end.

(** *** Sliders and lightbox *)

Definition sliderOptions : SwiperOptions :=
  {| speed := 600;
     loop := true;
     autoplay_delay := 5000;
     autoplay_disableOnInteraction := false;
     slidesPerView := "auto";
     pagination_el := ".swiper-pagination";
     pagination_type := "bullets";
     pagination_clickable := true |}.

Definition initSwipers : M unit :=
  emit (Enter InitSwipers) ;;
  widget (NewSwiper ".events-slider" sliderOptions) ;;
  widget (NewSwiper ".testimonials-slider" sliderOptions).

Definition initGLightbox : M unit :=
  emit (Enter InitGLightbox) ;;
  widget (GLightbox ".gallery-lightbox").

(** *** The load listener *)

(** The tail of the listener: "Handle hash links on load". *)
Definition handleHashOnLoad : M unit :=
  h <- gets (fun w => location_hash (page w)) ;;
  match h with
  | EmptyString => ret tt
  | _ =>
      target <- select h ;;
      match target with
      | Some _ => scrollTo h
      | None => ret tt
      end
  end.

Definition onLoad : M unit :=
  initNavbar ;;
  initScrollFunctions ;;
  initCarouselIndicators ;;
  initMenuIsotope ;;
  initSwipers ;;
  initGLightbox ;;
  handleHashOnLoad.

(** The script's top level. *)
Definition main : M unit :=
  addEventListener Window Load OnLoad true.

(** ** Event dispatch *)

(** Running a registered closure with [this] bound to the element the
    listener sits on.  The element listeners read [this.classList] and
    friends, which the window does not have. *)
Definition runHandler (h : Handler) (this : Target) : M unit :=
  match h, this with
  | NavbarlinksActive navbarlinks, _ => navbarlinksActive navbarlinks
  | HeaderScrolled, _ => headerScrolled
  | ToggleBacktotop, _ => toggleBacktotop
  | OnLoad, _ => onLoad
  | MobileNavToggleClick, Elem n => mobileNavToggle_click n
  | DropdownClick, Elem n => dropdown_click n
  | ScrolltoClick, Elem n => scrollto_click n
  | MenuFilterClick menuFilters, Elem n => menuFilter_click menuFilters n
  | _, Window => throw (TypeError "this")
  end.

Definition set_passive (b : bool) : M unit :=
  modify (fun w =>
    set_event (mkEvent (cancelable (event w)) b (canceled (event w))) w).

(** One listener invocation: the passive flag is set for its duration, and
    an exception thrown by the listener is reported, not propagated. *)
Definition invoke (l : Listener) : M unit := fun w =>
  match (set_passive (l_passive l) ;; runHandler (l_handler l) (l_target l)) w with
  | (w', Ok _) => set_passive false w'
  | (w', Throw e) => (set_passive false ;; emit (ReportError e)) w'
  end.

Definition is_cancelable (ty : EventType) : bool :=
  match ty with
  | Click => true
  | Scroll | Load => false
  end.

Definition listens (ty : EventType) (t : Target) (l : Listener) : bool :=
  bool_decide (l_type l = ty) && bool_decide (l_target l = t).

(** Dispatch of a fresh event of type [ty] at [t]: the listeners
    registered for it when the dispatch starts run in registration order.
    The result is [false] when the default action was prevented. *)
Definition dispatchEvent (ty : EventType) (t : Target) : M bool :=
  modify (set_event (mkEvent (is_cancelable ty) false false)) ;;
  ls <- gets (fun w => List.filter (listens ty t) (listeners w)) ;;
  forEach ls (fun l _ => invoke l) ;;
  gets (fun w => negb (canceled (event w))).

(** ** Reading the results *)

(** *** Navigation links and their sections *)

(** The section a navigation link points at: the element its hash
    selects, when the hash is not empty. *)
Definition target_section (p : Page) (link : Node) : option Node :=
  match hash p link with
  | None | Some EmptyString => None
  | Some h => querySelector p (trim h)
  end.

(** The query [navbarlinksActive] makes for a link, when that query
    throws: the link's hash is not empty and is not a selector. *)
Definition malformed (p : Page) (link : Node) : option string :=
  match hash p link with
  | None | Some EmptyString => None
  | Some h => if valid_selector p (trim h) then None else Some (trim h)
  end.

(** The first query of a round over [links] that throws. *)
Fixpoint first_malformed (p : Page) (links : list Node) : option string :=
  match links with
  | [] => None
  | link :: links' =>
      match malformed p link with
      | Some sel => Some sel
      | None => first_malformed p links'
      end
  end.

(** The links a round over [links] gets past: those before the first
    one whose query throws. *)
Fixpoint reached (p : Page) (links : list Node) : list Node :=
  match links with
  | [] => []
  | link :: links' =>
      match malformed p link with
      | Some _ => []
      | None => link :: reached p links'
      end
  end.

(** How a round over [links] ends. *)
Definition round_result (p : Page) (links : list Node) : Result unit :=
  match first_malformed p links with
  | Some sel => Throw (SyntaxError sel)
  | None => Ok tt
  end.

(** What a dispatch reports of a listener that ended in [r]. *)
Definition reported {A} (r : Result A) : list Effect :=
  match r with
  | Throw e => [ReportError e]
  | Ok _ => []
  end.

(** The element a URL fragment points at: the one whose id is the
    fragment, for a fragment without percent-escapes. *)
Definition fragment_element (p : Page) : option Node :=
  match location_hash p with
  | String "#" id => getElementById p id
  | _ => None
  end.

(** [position] lies in the vertical span of [section], both ends
    included. *)
Definition in_span (p : Page) (position : Z) (section : Node) : Prop :=
  offsetTop p section <= position <= offsetTop p section + offsetHeight p section.

(** *** Markup

    To say what the builder's markup contains, it is read the way the
    page reads it: by the HTML tokenizer.  These are the tokenizer's
    states for tags with attributes; character references, comments,
    self-closing tags and the lower-casing of names are left out, none
    of which the markup built here exercises. *)

Definition Attrs := list (string * string).

Inductive Token :=
| StartTag (name : string) (attrs : Attrs)
| EndTag (name : string)
| Character (c : ascii).

Inductive TokenizerState :=
| Data
| TagOpen
| EndTagOpen
| TagName (closing : bool) (name : string)
| BeforeAttributeName (closing : bool) (name : string) (attrs : Attrs)
| AttributeName (closing : bool) (name : string) (attrs : Attrs) (attr : string)
| BeforeAttributeValue (closing : bool) (name : string) (attrs : Attrs) (attr : string)
| AttributeValue (quote : option ascii) (closing : bool) (name : string)
    (attrs : Attrs) (attr value : string)
| AfterAttributeValue (closing : bool) (name : string) (attrs : Attrs).

Definition double_quote : ascii := ascii_of_nat 34.

Definition snoc (s : string) (c : ascii) : string := s +:+ String c EmptyString.

Definition emit_tag (closing : bool) (name : string) (attrs : Attrs) : Token :=
  if closing then EndTag name else StartTag name attrs.

Definition tokenizer_step (st : TokenizerState) (c : ascii) : TokenizerState * list Token :=
  match st with
  | Data =>
      if Ascii.eqb c "<" then (TagOpen, []) else (Data, [Character c])
  | TagOpen =>
      if Ascii.eqb c "/" then (EndTagOpen, [])
      else if is_alpha c then (TagName false (String c EmptyString), [])
      else if Ascii.eqb c "<" then (TagOpen, [Character "<"])
      else (Data, [Character "<"; Character c])
  | EndTagOpen =>
      if is_alpha c then (TagName true (String c EmptyString), [])
      else (Data, [])
  | TagName closing name =>
      if Ascii.is_space c then (BeforeAttributeName closing name [], [])
      else if Ascii.eqb c ">" then (Data, [emit_tag closing name []])
      else (TagName closing (snoc name c), [])
  | BeforeAttributeName closing name attrs =>
      if Ascii.is_space c then (st, [])
      else if Ascii.eqb c ">" then (Data, [emit_tag closing name attrs])
      else (AttributeName closing name attrs (String c EmptyString), [])
  | AttributeName closing name attrs attr =>
      if Ascii.eqb c "=" then (BeforeAttributeValue closing name attrs attr, [])
      else if Ascii.is_space c then (BeforeAttributeName closing name (attrs ++ [(attr, EmptyString)]), [])
      else if Ascii.eqb c ">" then (Data, [emit_tag closing name (attrs ++ [(attr, EmptyString)])])
      else (AttributeName closing name attrs (snoc attr c), [])
  | BeforeAttributeValue closing name attrs attr =>
      if Ascii.is_space c then (st, [])
      else if Ascii.eqb c "'" || Ascii.eqb c double_quote
      then (AttributeValue (Some c) closing name attrs attr EmptyString, [])
      else if Ascii.eqb c ">" then (Data, [emit_tag closing name (attrs ++ [(attr, EmptyString)])])
      else (AttributeValue None closing name attrs attr (String c EmptyString), [])
  | AttributeValue (Some quote) closing name attrs attr value =>
      if Ascii.eqb c quote then (AfterAttributeValue closing name (attrs ++ [(attr, value)]), [])
      else (AttributeValue (Some quote) closing name attrs attr (snoc value c), [])
  | AttributeValue None closing name attrs attr value =>
      if Ascii.is_space c then (BeforeAttributeName closing name (attrs ++ [(attr, value)]), [])
      else if Ascii.eqb c ">" then (Data, [emit_tag closing name (attrs ++ [(attr, value)])])
      else (AttributeValue None closing name attrs attr (snoc value c), [])
  | AfterAttributeValue closing name attrs =>
      if Ascii.is_space c then (BeforeAttributeName closing name attrs, [])
      else if Ascii.eqb c ">" then (Data, [emit_tag closing name attrs])
      else (AttributeName closing name attrs (String c EmptyString), [])
  end.

Fixpoint tokenize_from (st : TokenizerState) (s : string) : list Token * TokenizerState :=
  match s with
  | EmptyString => ([], st)
  | String c s' =>
      let (st', out) := tokenizer_step st c in
      let (rest, final) := tokenize_from st' s' in
      (out ++ rest, final)
  end.

Definition tokenize (s : string) : list Token := fst (tokenize_from Data s).

(** Every start tag opens one element. *)
Fixpoint parsed_elements (ts : list Token) : list (string * Attrs) :=
  match ts with
  | StartTag name attrs :: ts' => (name, attrs) :: parsed_elements ts'
  | _ :: ts' => parsed_elements ts'
  | [] => []
  end.

Fixpoint attribute (attr : string) (attrs : Attrs) : option string :=
  match attrs with
  | (a, v) :: attrs' => if String.eqb a attr then Some v else attribute attr attrs'
  | [] => None
  end.

Definition has_class (c : string) (attrs : Attrs) : bool :=
  match attribute "class" attrs with
  | Some v => bool_decide (c ∈ String.words v)
  | None => false
  end.

(** *** The order of calls *)

Definition is_entry (e : Effect) : bool :=
  match e with
  | Enter _ | EnterScrollTo _ => true
  | _ => false
  end.

(** The functions of the script entered so far, oldest first. *)
Definition entered (w : World) : list Effect := List.filter is_entry (effects w).

(** Running computations one after the other, as a statement sequence
    does. *)
Fixpoint sequence (ms : list (M unit)) : M unit :=
  match ms with
  | [] => ret tt
  | m :: ms' => m ;; sequence ms'
  end.

Definition initializers : list (Initializer * M unit) :=
  [ (InitNavbar, initNavbar);
    (InitScrollFunctions, initScrollFunctions);
    (InitCarouselIndicators, initCarouselIndicators);
    (InitMenuIsotope, initMenuIsotope);
    (InitSwipers, initSwipers);
    (InitGLightbox, initGLightbox) ].

(** *** Class lists

    What [classList.toggle(c)] leaves behind. *)
Definition toggled (c : string) (s : gset string) : gset string :=
  if bool_decide (c ∈ s) then s ∖ {[c]} else {[c]} ∪ s.

(** The memberships one click on the toggle flips. *)
Definition flipped_by_toggle (navbar this : Node) (n : Node) (c : string) : Prop :=
  (n = navbar /\ c = "navbar-mobile") \/ (n = this /\ (c = "bi-list" \/ c = "bi-x")).

(** What one round of [navbarlinksActive] does to the class list [s] of
    the link [n], and to the world when it visits [n]. *)
Definition marked (p : Page) (position : Z) (n : Node) (s : gset string) : gset string :=
  match target_section p n with
  | Some section =>
      if (position >=? offsetTop p section)
         && (position <=? offsetTop p section + offsetHeight p section)
      then {["active"]} ∪ s
      else s ∖ {["active"]}
  | None => s
  end.

Definition mark_link (position : Z) (n : Node) (w : World) : World :=
  match target_section (page w) n with
  | Some _ => set_classList (upd (classList w) n (marked (page w) position n (classList w n))) w
  | None => w
  end.

(** The memberships [headerScrolled] decides. *)
Definition decided_by_headerScrolled (p : Page) (n : Node) (c : string) : Prop :=
  (querySelector p "#header" = Some n /\ c = "header-scrolled") \/
  (querySelector p "#topbar" = Some n /\ c = "topbar-scrolled").

(** The membership [toggleBacktotop] decides. *)
Definition decided_by_toggleBacktotop (p : Page) (n : Node) (c : string) : Prop :=
  querySelector p ".back-to-top" = Some n /\ c = "active".

(** ** A sample page

    The page of the running example: a header ([1]) of height 70, the
    navbar ([2]) with its toggle ([3]), two navigation links ([4] to the
    section "about" ([6]), which spans the pixels 400 to 900, and [5],
    whose hash is empty), a dropdown link ([7]) with its submenu ([8]),
    the carousel with three slides ([10], [11], [12]), the menu grid
    ([14]) with two filters ([15], [16]) and the back-to-top button
    ([13]).  The indicator host and the widget failures are left open. *)
Definition demoQuery (host : list Node) (sel : string) : list Node :=
  if String.eqb sel "#header" then [1%nat]
  else if String.eqb sel "#navbar" then [2%nat]
  else if String.eqb sel ".mobile-nav-toggle" then [3%nat]
  else if String.eqb sel "#navbar .scrollto" then [4%nat; 5%nat]
  else if String.eqb sel ".scrollto" then [4%nat; 5%nat]
  else if String.eqb sel "#about" then [6%nat]
  else if String.eqb sel ".navbar .dropdown > a" then [7%nat]
  else if String.eqb sel "#hero-carousel-indicators" then host
  else if String.eqb sel "#heroCarousel .carousel-item" then [10%nat; 11%nat; 12%nat]
  else if String.eqb sel ".back-to-top" then [13%nat]
  else if String.eqb sel ".menu-container" then [14%nat]
  else if String.eqb sel "#menu-flters li" then [15%nat; 16%nat]
  else [].

Definition demoIds (host : list Node) (id : string) : option Node :=
  if String.eqb id "header" then Some 1%nat
  else if String.eqb id "navbar" then Some 2%nat
  else if String.eqb id "about" then Some 6%nat
  else if String.eqb id "hero-carousel-indicators" then head host
  else None.

Definition demoPage (host : list Node) (fails : Effect -> option Exn) : Page :=
  {| querySelectorAll := demoQuery host;
     other_selector := fun _ => false;
     getElementById := demoIds host;
     hash := fun n =>
       if (n =? 4)%nat then Some "#about"
       else if (n =? 5)%nat then Some EmptyString
       else None;
     offsetTop := fun n => if (n =? 6)%nat then 400 else 0;
     offsetHeight := fun n =>
       if (n =? 6)%nat then 500 else if (n =? 1)%nat then 70 else 0;
     nextElementSibling := fun n => if (n =? 7)%nat then Some 8%nat else None;
     getAttribute := fun n a =>
       if String.eqb a "data-filter"
       then if (n =? 15)%nat then Some "*"
            else if (n =? 16)%nat then Some ".filter-starters" else None
       else None;
     location_hash := "#about";
     widget_fails := fails |}.

Definition demoClasses (n : Node) : gset string :=
  if (n =? 2)%nat then {["navbar-mobile"]}
  else if (n =? 3)%nat then {["bi-x"]}
  else if (n =? 5)%nat then {["active"]}
  else if (n =? 15)%nat then {["filter-active"]}
  else ∅.

Definition demoWorldWith (host : list Node) (fails : Effect -> option Exn) : World :=
  {| page := demoPage host fails;
     scrollY := 250;
     classList := demoClasses;
     innerHTML := fun _ => EmptyString;
     listeners := [];
     event := mkEvent false false false;
     effects := [] |}.

Definition demoWorld : World := demoWorldWith [9%nat] (fun _ => None).

(** The sample page after an edit of its markup: the link [5] now points
    at a route, [#/about], which is not a selector. *)
Definition strayPage : Page :=
  let p := page demoWorld in
  {| querySelectorAll := querySelectorAll p;
     other_selector := other_selector p;
     getElementById := getElementById p;
     hash := fun n => if (n =? 5)%nat then Some "#/about" else hash p n;
     offsetTop := offsetTop p;
     offsetHeight := offsetHeight p;
     nextElementSibling := nextElementSibling p;
     getAttribute := getAttribute p;
     location_hash := location_hash p;
     widget_fails := widget_fails p |}.

(** The sample page after another edit: the section [6] and the link
    [4] to it are renamed to the year 2024, and the URL points there.
    An id may start with a digit; [#2024] is not a selector. *)
Definition yearPage : Page :=
  let p := page demoWorld in
  {| querySelectorAll := fun sel =>
       if String.eqb sel "#about" then [] else querySelectorAll p sel;
     other_selector := other_selector p;
     getElementById := fun id =>
       if String.eqb id "2024" then Some 6%nat
       else if String.eqb id "about" then None
       else getElementById p id;
     hash := fun n => if (n =? 4)%nat then Some "#2024" else hash p n;
     offsetTop := offsetTop p;
     offsetHeight := offsetHeight p;
     nextElementSibling := nextElementSibling p;
     getAttribute := getAttribute p;
     location_hash := "#2024";
     widget_fails := widget_fails p |}.

Definition yearWorld : World :=
  {| page := yearPage;
     scrollY := 250;
     classList := demoClasses;
     innerHTML := fun _ => EmptyString;
     listeners := [];
     event := mkEvent false false false;
     effects := [] |}.

(** The sample page with a class on its section, and a URL that ends in
    [#about.intro]: no element has that id, and as a selector it finds
    the section [6]. *)
Definition introPage : Page :=
  let p := page demoWorld in
  {| querySelectorAll := fun sel =>
       if String.eqb sel "#about.intro" then [6%nat] else querySelectorAll p sel;
     other_selector := other_selector p;
     getElementById := getElementById p;
     hash := hash p;
     offsetTop := offsetTop p;
     offsetHeight := offsetHeight p;
     nextElementSibling := nextElementSibling p;
     getAttribute := getAttribute p;
     location_hash := "#about.intro";
     widget_fails := widget_fails p |}.

Definition introWorld : World :=
  {| page := introPage;
     scrollY := 250;
     classList := fun n => if (n =? 6)%nat then {["intro"]} else demoClasses n;
     innerHTML := fun _ => EmptyString;
     listeners := [];
     event := mkEvent false false false;
     effects := [] |}.

Definition strayWorld : World :=
  {| page := strayPage;
     scrollY := 250;
     classList := demoClasses;
     innerHTML := fun _ => EmptyString;
     listeners := [];
     event := mkEvent false false false;
     effects := [] |}.

(** *** Carousel indicators, read back *)

(** The markup a run of the builder adds for the slides [index],
    [index + 1], ... *)
Fixpoint indicators_from (index count : nat) : string :=
  match count with
  | O => EmptyString
  | S count' => indicator index +:+ indicators_from (S index) count'
  end.

(** The attributes of the indicator for slide [index]. *)
Definition indicator_attrs (index : nat) : Attrs :=
  [("data-bs-target", "#heroCarousel"); ("data-bs-slide-to", toString index)]
  ++ (if (index =? 0)%nat then [("class", "active")] else []).

(** *** Footprints

    [quiet m]: running [m] changes neither the page nor the record of
    entered functions. *)
Definition quiet {A} (m : M A) : Prop :=
  forall w w' r, m w = (w', r) -> page w' = page w /\ entered w' = entered w.

(** [enters e m]: running [m] leaves the page alone and records exactly
    the entry [e]. *)
Definition enters (e : Effect) (m : M unit) : Prop :=
  forall w w' r, m w = (w', r) ->
    page w' = page w /\ entered w' = entered w ++ [e].

(** The page URL carries a fragment that, handed to [select], returns
    an element. *)
Definition fragment_target (p : Page) : bool :=
  match location_hash p with
  | EmptyString => false
  | h => bool_decide (is_Some (querySelector p (trim h)))
  end.

(** The sample page with a lightbox library that fails to load. *)
Definition lightboxFails (call : Effect) : option Exn :=
  match call with
  | GLightbox _ => Some (WidgetError "GLightbox is not defined")
  | _ => None
  end.

(** [passive_safe m]: run for a passive listener, [m] leaves the event
    object as it found it. *)
Definition passive_safe {A} (m : M A) : Prop :=
  forall w w' r, m w = (w', r) ->
    inPassiveListener (event w) = true -> event w' = event w.

(** The listeners [initScrollFunctions] puts on the window. *)
Definition scrollListenersOf (navbarlinks : list Node) : list Listener :=
  [ mkListener Window Scroll (NavbarlinksActive navbarlinks) true;
    mkListener Window Scroll HeaderScrolled true;
    mkListener Window Scroll ToggleBacktotop true ].

(** *** Frames

    [same_but_listeners w w']: [w'] differs from [w] at most in the
    listeners. *)
Definition same_but_listeners (w w' : World) : Prop :=
  page w' = page w /\ scrollY w' = scrollY w /\ classList w' = classList w /\
  innerHTML w' = innerHTML w /\ event w' = event w /\ effects w' = effects w.

(** The listener [on] puts on the element [e]. *)
Definition registered (type : EventType) (listener : Handler) (e : Node) : Listener :=
  mkListener (Elem e) type listener true.

(** The elements [on] attaches to: all matches, or the first one. *)
Definition on_targets (p : Page) (el : string) (all : bool) : list Node :=
  if all then querySelectorAll p (trim el)
  else option_list (querySelector p (trim el)).

(** The selectors the script hands to [on]. *)
Definition on_selectors : list string :=
  [".mobile-nav-toggle"; ".navbar .dropdown > a"; ".scrollto"; "#menu-flters li"].

(** A page on which no selector matches anything. *)
Definition barePage : Page :=
  {| querySelectorAll := fun _ => [];
     other_selector := fun _ => false;
     getElementById := fun _ => None;
     hash := fun _ => None;
     offsetTop := fun _ => 0;
     offsetHeight := fun _ => 0;
     nextElementSibling := fun _ => None;
     getAttribute := fun _ _ => None;
     location_hash := EmptyString;
     widget_fails := fun _ => None |}.

Definition bareWorld : World :=
  {| page := barePage;
     scrollY := 0;
     classList := fun _ => ∅;
     innerHTML := fun _ => EmptyString;
     listeners := [];
     event := mkEvent false false false;
     effects := [] |}.

(** [preserves R m]: every run of [m], returning or throwing, takes a
    world to one related to it by [R]. *)
Definition preserves {A} (R : World -> World -> Prop) (m : M A) : Prop :=
  forall w w' r, m w = (w', r) -> R w w'.

(** Every registered listener is passive. *)
Definition all_passive (w : World) : Prop :=
  Forall (fun l => l_passive l = true) (listeners w).

(** Passive listeners stay the only ones. *)
Definition keeps_passive (w w' : World) : Prop := all_passive w -> all_passive w'.

(** The class lists stay as they are. *)
Definition keeps_classes (w w' : World) : Prop := classList w' = classList w.

(** A run of events, one dispatch after the other; the results of the
    dispatches, in order. *)
Fixpoint dispatch_all (events : list (EventType * Target)) : M (list bool) :=
  match events with
  | [] => ret []
  | (ty, t) :: events' =>
      b <- dispatchEvent ty t ;;
      bs <- dispatch_all events' ;;
      ret (b :: bs)
  end.

(** The slide an indicator element names: its [data-bs-slide-to]
    attribute, read as a decimal number. *)
Definition slide_index (attrs : Attrs) : option nat :=
  match attribute "data-bs-slide-to" attrs with
  | Some v => option_map Nat.of_uint (NilEmpty.uint_of_string v)
  | None => None
  end.

(** The elements the builder adds for [count] slides. *)
Definition indicator_elements (count : nat) : list (string * Attrs) :=
  map (fun i => ("li", indicator_attrs i)) (seq 0 count).

(** *** When the load listener completes

    What the page must offer for each step of the load listener to
    return. *)
Definition carousel_ready (p : Page) : Prop :=
  querySelector p "#hero-carousel-indicators" <> None \/
  querySelectorAll p "#heroCarousel .carousel-item" = [].

Definition menu_ready (p : Page) : Prop :=
  forall container,
    querySelector p ".menu-container" = Some container ->
    widget_fails p (NewIsotope container ".menu-item" "fitRows") = None.

Definition swipers_ready (p : Page) : Prop :=
  widget_fails p (NewSwiper ".events-slider" sliderOptions) = None /\
  widget_fails p (NewSwiper ".testimonials-slider" sliderOptions) = None.

Definition lightbox_ready (p : Page) : Prop :=
  widget_fails p (GLightbox ".gallery-lightbox") = None.

Definition fragment_ready (p : Page) : Prop :=
  (location_hash p <> EmptyString ->
   valid_selector p (trim (location_hash p)) = true) /\
  (fragment_target p = true -> querySelector p "#header" <> None).

Definition load_ready (p : Page) : Prop :=
  carousel_ready p /\ menu_ready p /\ swipers_ready p /\ lightbox_ready p /\
  fragment_ready p.

(** The sample page with a grid library that fails to load. *)
Definition isotopeFails (call : Effect) : option Exn :=
  match call with
  | NewIsotope _ _ _ => Some (WidgetError "Isotope is not defined")
  | _ => None
  end.

(** [returns_iff m ready]: [m] leaves the page alone, and returns
    (rather than throws) exactly on the pages that are [ready]. *)
Definition returns_iff (m : M unit) (ready : Page -> Prop) : Prop :=
  forall w, exists w' r,
    m w = (w', r) /\ page w' = page w /\ (r = Ok tt <-> ready (page w)).

(** * Properties *)

Set Warnings "-clear-no-such-hyp".

Arguments trim : simpl never.
Arguments valid_selector : simpl never.
Arguments querySelector : simpl never.

(** ** Running monadic code *)

Lemma upd_eq {A} (f : Node -> A) n a : upd f n a n = a.
Proof. unfold upd. by rewrite decide_True. Qed.

Lemma upd_ne {A} (f : Node -> A) n m a : m <> n -> upd f n a m = f m.
Proof. intros. unfold upd. by rewrite decide_False. Qed.

Lemma bind_run {A B} (m : M A) (f : A -> M B) w w' a :
  m w = (w', Ok a) -> bind m f w = f a w'.
Proof. intros H. unfold bind. by rewrite H. Qed.

Lemma bind_throw {A B} (m : M A) (f : A -> M B) w w' e :
  m w = (w', Throw e) -> bind m f w = (w', Throw e).
Proof. intros H. unfold bind. by rewrite H. Qed.

(** Literal selectors are already trimmed. *)
Ltac trim_literals :=
  repeat match goal with
  | |- context [trim ?s] =>
      lazymatch s with
      | String _ _ => let v := eval vm_compute in (trim s) in change (trim s) with v
      end
  end.

Ltac js_unfold :=
  unfold select, select_all, emit, widget, classList_add, classList_remove,
    classList_contains, preventDefault, addEventListener, innerHTML_append,
    selectors.navbar, selectors.header, selectors.topbar, selectors.backToTop,
    selectors.menuContainer, bind, gets, modify, ret, throw,
    set_classList, set_innerHTML, set_listeners, set_event, set_effects.

(** The script's literal selectors are selectors on every page. *)
Ltac valid_literals :=
  repeat match goal with
  | |- context [valid_selector ?p ?s] =>
      lazymatch s with
      | String _ _ => change (valid_selector p s) with true
      end
  end.

Ltac js_run :=
  js_unfold; cbn; trim_literals; repeat (progress valid_literals; cbn; trim_literals).

(** ** Selector queries *)

Lemma selector_run_NoSelector s : selector_run NoSelector s = NoSelector.
Proof. induction s as [|c s IH]; [done|exact IH]. Qed.

(** What [simple_selector] recognises is a selector on every page. *)
Lemma simple_selector_valid p s : simple_selector s = true -> valid_selector p s = true.
Proof.
  intros Hs. unfold valid_selector. rewrite Hs, andb_true_r.
  destruct s as [|c s]; [done|]. cbn [not_a_selector].
  destruct (Ascii.eqb_spec c "#") as [->|Hc].
  - destruct s as [|d s]; [done|]. cbv zeta.
    destruct (ident_start d) eqn:Hd; [by rewrite !andb_false_r|].
    destruct (Ascii.eqb_spec d "-") as [->|Hd']; [by rewrite !andb_false_r|].
    exfalso. unfold simple_selector in Hs. cbn [selector_run] in Hs.
    change (compound_step "#") with AfterMark in Hs. cbn [selector_step] in Hs.
    rewrite Hd, (proj2 (Ascii.eqb_neq d "-") Hd') in Hs.
    by rewrite selector_run_NoSelector in Hs.
  - by destruct c as [[] [] [] [] [] [] [] []].
Qed.

Lemma querySelector_valid p sel n :
  querySelector p sel = Some n -> valid_selector p sel = true.
Proof. unfold querySelector. by destruct (valid_selector p sel). Qed.

Lemma querySelector_invalid p sel :
  valid_selector p sel = false -> querySelector p sel = None.
Proof. unfold querySelector. by intros ->. Qed.

Lemma select_run el w :
  valid_selector (page w) (trim el) = true ->
  select el w = (w, Ok (querySelector (page w) (trim el))).
Proof. intros H. unfold select, bind, gets. cbn. by rewrite H. Qed.

Lemma select_some el w n :
  querySelector (page w) (trim el) = Some n -> select el w = (w, Ok (Some n)).
Proof.
  intros H. rewrite select_run by (by eapply querySelector_valid). by rewrite H.
Qed.

Lemma select_none el w :
  valid_selector (page w) (trim el) = true ->
  querySelector (page w) (trim el) = None -> select el w = (w, Ok None).
Proof. intros Hv H. rewrite select_run by done. by rewrite H. Qed.

Lemma select_throw el w :
  valid_selector (page w) (trim el) = false ->
  select el w = (w, Throw (SyntaxError (trim el))).
Proof. intros H. unfold select, bind, gets, throw. cbn. by rewrite H. Qed.

Lemma select_all_run el w :
  valid_selector (page w) (trim el) = true ->
  select_all el w = (w, Ok (querySelectorAll (page w) (trim el))).
Proof. intros H. unfold select_all, bind, gets. cbn. by rewrite H. Qed.

Lemma select_all_throw el w :
  valid_selector (page w) (trim el) = false ->
  select_all el w = (w, Throw (SyntaxError (trim el))).
Proof. intros H. unfold select_all, bind, gets, throw. cbn. by rewrite H. Qed.

(** Whatever a query does, it leaves the world as it was. *)
Lemma select_world el w w' r : select el w = (w', r) -> w' = w.
Proof.
  destruct (valid_selector (page w) (trim el)) eqn:E.
  - rewrite select_run by done. by intros [= <- _].
  - rewrite select_throw by done. by intros [= <- _].
Qed.

Lemma select_all_world el w w' r : select_all el w = (w', r) -> w' = w.
Proof.
  destruct (valid_selector (page w) (trim el)) eqn:E.
  - rewrite select_all_run by done. by intros [= <- _].
  - rewrite select_all_throw by done. by intros [= <- _].
Qed.

(** A loop whose body cannot throw is a fold. *)
Lemma forEach_from_fold {A} (f : A -> nat -> M unit) (g : A -> World -> World) xs :
  (forall x i w, f x i w = (g x w, Ok tt)) ->
  forall i w, forEach_from i xs f w = (fold_left (fun w x => g x w) xs w, Ok tt).
Proof.
  intros Hf. induction xs as [|x xs IH]; intros i w; cbn [forEach_from fold_left].
  - reflexivity.
  - erewrite bind_run by apply Hf. apply IH.
Qed.

Lemma forEach_fold {A} (f : A -> nat -> M unit) (g : A -> World -> World) xs w :
  (forall x i w, f x i w = (g x w, Ok tt)) ->
  forEach xs f w = (fold_left (fun w x => g x w) xs w, Ok tt).
Proof. intros Hf. by apply forEach_from_fold. Qed.

(** ** Class lists *)

Lemma elem_of_toggled c s x :
  x ∈ toggled c s <-> (x = c /\ c ∉ s) \/ (x <> c /\ x ∈ s).
Proof.
  unfold toggled. destruct (decide (x = c)) as [->|]; case_bool_decide; set_solver.
Qed.

Lemma classList_toggle_run n c w :
  classList_toggle n c w =
  (set_classList (upd (classList w) n (toggled c (classList w n))) w, Ok tt).
Proof. unfold classList_toggle, toggled. js_run. by case_bool_decide. Qed.

(** ** The smooth-scroll helper *)

(** C5. With the header present and of height [h], and the target present
    at offset [t], the helper asks the window, once, to scroll to
    [t - h]. *)
Theorem scrollTo_destination (w : World) (el : string) (header target : Node) :
  querySelector (page w) "#header" = Some header ->
  querySelector (page w) (trim el) = Some target ->
  scrollTo el w =
  (set_effects
     (effects w ++
      [EnterScrollTo el;
       WindowScrollTo (offsetTop (page w) target - offsetHeight (page w) header) "smooth"])
     w,
   Ok tt).
Proof.
  intros Hh Ht. unfold scrollTo.
  erewrite bind_run by reflexivity.
  erewrite bind_run by (apply select_some; exact Hh). cbv beta iota.
  erewrite bind_run by reflexivity.
  erewrite bind_run by (apply select_some; exact Ht). cbv beta iota.
  js_run. by rewrite <- app_assoc.
Qed.

(** ** The mobile navigation toggle *)

Lemma mobileNavToggle_click_flips w navbar this :
  querySelector (page w) "#navbar" = Some navbar ->
  exists w1, mobileNavToggle_click this w = (w1, Ok tt) /\
    page w1 = page w /\
    forall n c, c ∈ classList w1 n <->
      if decide (flipped_by_toggle navbar this n c)
      then c ∉ classList w n else c ∈ classList w n.
Proof.
  intros Hnav. unfold mobileNavToggle_click.
  erewrite bind_run
    by (apply select_some; exact Hnav).
  cbv beta iota.
  do 2 (erewrite bind_run by apply classList_toggle_run).
  rewrite classList_toggle_run. eexists; split; [reflexivity|]. split; [reflexivity|].
  intros n c. cbn. unfold upd.
  repeat case_decide; subst; rewrite ?elem_of_toggled;
    unfold flipped_by_toggle in *; naive_solver.
Qed.

(** C6. When the toggle carries exactly one of [bi-list] and [bi-x], a
    click flips [navbar-mobile] on the navbar and swaps the two icon
    markers; a second click restores both class lists. *)
Theorem mobileNavToggle_click_twice (w : World) (navbar this : Node) :
  querySelector (page w) "#navbar" = Some navbar ->
  ("bi-list" ∈ classList w this <-> "bi-x" ∉ classList w this) ->
  exists w1 w2,
    mobileNavToggle_click this w = (w1, Ok tt) /\
    mobileNavToggle_click this w1 = (w2, Ok tt) /\
    ("navbar-mobile" ∈ classList w1 navbar <-> "navbar-mobile" ∉ classList w navbar) /\
    ("bi-list" ∈ classList w1 this <-> "bi-x" ∈ classList w this) /\
    ("bi-x" ∈ classList w1 this <-> "bi-list" ∈ classList w this) /\
    ("bi-list" ∈ classList w1 this <-> "bi-x" ∉ classList w1 this) /\
    classList w2 navbar = classList w navbar /\
    classList w2 this = classList w this.
Proof.
  intros Hnav Hone.
  destruct (mobileNavToggle_click_flips w navbar this Hnav) as (w1 & E1 & Hp & F1).
  destruct (mobileNavToggle_click_flips w1 navbar this) as (w2 & E2 & _ & F2);
    [by rewrite Hp|].
  exists w1, w2. split; [done|]. split; [done|].
  assert (Hdec : forall P : Prop, Decision P -> ~ ~ P -> P)
    by (intros P [?|?]; tauto).
  assert (Htwice : forall n, classList w2 n = classList w n).
  { intros n. apply set_eq. intros c. rewrite F2. case_decide.
    - rewrite F1. rewrite decide_True by done. split; [apply Hdec; apply _|tauto].
    - rewrite F1. by rewrite decide_False. }
  pose proof (F1 navbar "navbar-mobile") as Fn.
  rewrite decide_True in Fn by (left; done).
  pose proof (F1 this "bi-list") as Fl.
  rewrite decide_True in Fl by (right; auto).
  pose proof (F1 this "bi-x") as Fx.
  rewrite decide_True in Fx by (right; auto).
  destruct (decide ("bi-x" ∈ classList w this));
    destruct (decide ("bi-list" ∈ classList w this)); repeat split; try tauto; auto.
Qed.

(** ** The scroll listeners *)

Lemma in_span_test p position section :
  (position >=? offsetTop p section)
  && (position <=? offsetTop p section + offsetHeight p section) = true
  <-> in_span p position section.
Proof. unfold in_span. rewrite andb_true_iff, Z.geb_le, Z.leb_le. lia. Qed.

Lemma elem_of_marked p position n s c :
  c ∈ marked p position n s <->
  match target_section p n with
  | Some section =>
      if decide (c = "active") then in_span p position section else c ∈ s
  | None => c ∈ s
  end.
Proof.
  unfold marked. destruct (target_section p n) as [section|]; [|done].
  pose proof (in_span_test p position section) as Hs.
  destruct (_ && _); case_decide; subst; set_unfold; intuition congruence.
Qed.

Lemma marked_idemp p position n s :
  marked p position n (marked p position n s) = marked p position n s.
Proof.
  unfold marked. destruct (target_section p n); [|done].
  destruct (_ && _); set_solver.
Qed.

Lemma mark_link_page position n w : page (mark_link position n w) = page w.
Proof. unfold mark_link. by destruct (target_section _ _). Qed.

Lemma mark_link_classList position n w m :
  classList (mark_link position n w) m =
  if decide (m = n) then marked (page w) position n (classList w n) else classList w m.
Proof.
  unfold mark_link. destruct (target_section (page w) n) eqn:E; cbn.
  - unfold upd. by case_decide; subst.
  - case_decide; subst; [|done]. unfold marked. by rewrite E.
Qed.

Lemma fold_mark_link_page position ns w :
  page (fold_left (fun w' n => mark_link position n w') ns w) = page w.
Proof.
  revert w. induction ns as [|n ns IH]; intros w; cbn; [done|].
  by rewrite IH, mark_link_page.
Qed.

Lemma fold_mark_link_classList position ns w m :
  classList (fold_left (fun w' n => mark_link position n w') ns w) m =
  if decide (m ∈ ns) then marked (page w) position m (classList w m) else classList w m.
Proof.
  revert w. induction ns as [|n ns IH]; intros w; cbn.
  - by rewrite decide_False by apply not_elem_of_nil.
  - rewrite IH, mark_link_page, mark_link_classList.
    destruct (decide (m = n)) as [->|Hne].
    + rewrite (decide_True (P := n ∈ n :: ns)) by apply list_elem_of_here.
      case_decide; [apply marked_idemp|done].
    + destruct (decide (m ∈ ns)) as [Hin|Hnin].
      * by rewrite decide_True by (by apply list_elem_of_further).
      * rewrite decide_False; [done|]. rewrite elem_of_cons. tauto.
Qed.

(** The other fields of the world are left alone. *)
Lemma fold_mark_link_frame position ns w :
  let w' := fold_left (fun w' n => mark_link position n w') ns w in
  scrollY w' = scrollY w /\ innerHTML w' = innerHTML w /\ listeners w' = listeners w /\
  event w' = event w /\ effects w' = effects w.
Proof.
  revert w. induction ns as [|n ns IH]; intros w; cbn; [done|].
  destruct (IH (mark_link position n w)) as (-> & -> & -> & -> & ->).
  unfold mark_link. by destruct (target_section _ _).
Qed.

(** *** A round of [navbarlinksActive]

    The loop marks the links in turn and stops, with the exception, at
    the first link whose query throws. *)

Lemma first_malformed_reached p links :
  first_malformed p links = None -> reached p links = links.
Proof.
  induction links as [|n ns IH]; cbn; [done|].
  destruct (malformed p n); [done|]. intros H. by rewrite IH.
Qed.

Lemma reached_elem_of p links n : n ∈ reached p links -> n ∈ links.
Proof.
  induction links as [|m ms IH]; cbn; [done|].
  destruct (malformed p m); [by intros ?%elem_of_nil|].
  rewrite !elem_of_cons. tauto.
Qed.

Lemma forEach_from_reached (f : Node -> nat -> M unit) position p links :
  (forall n i w, page w = p ->
     f n i w = match malformed p n with
               | Some sel => (w, Throw (SyntaxError sel))
               | None => (mark_link position n w, Ok tt)
               end) ->
  forall i w, page w = p ->
    forEach_from i links f w =
    (fold_left (fun w' n => mark_link position n w') (reached p links) w,
     round_result p links).
Proof.
  intros Hf. unfold round_result.
  induction links as [|n ns IH]; intros i w Hp; cbn [forEach_from reached first_malformed].
  - reflexivity.
  - specialize (Hf n i w Hp). destruct (malformed p n) as [sel|].
    + by erewrite bind_throw by exact Hf.
    + erewrite bind_run by exact Hf. cbn [fold_left].
      apply IH. by rewrite mark_link_page.
Qed.

Lemma navbarlinksActive_fold navbarlinks w :
  navbarlinksActive navbarlinks w =
  (fold_left (fun w' n => mark_link (scrollY w + 200) n w')
     (reached (page w) navbarlinks) w,
   round_result (page w) navbarlinks).
Proof.
  unfold navbarlinksActive.
  erewrite bind_run by reflexivity.
  apply forEach_from_reached; [|done]. intros n _ w' Hp.
  unfold malformed, mark_link, marked, target_section.
  erewrite bind_run by reflexivity. cbv beta. rewrite <- Hp.
  destruct (hash (page w') n) as [[|c h]|]; try reflexivity.
  destruct (valid_selector (page w') (trim (String c h))) eqn:Hv.
  - erewrite bind_run by (by apply select_run).
    destruct (querySelector (page w') (trim (String c h))); [|reflexivity].
    js_run. by destruct (_ && _).
  - by erewrite bind_throw by (by apply select_throw).
Qed.

Lemma navbarlinksActive_classes navbarlinks w :
  exists w', navbarlinksActive navbarlinks w = (w', round_result (page w) navbarlinks) /\
    page w' = page w /\ scrollY w' = scrollY w /\
    forall n, classList w' n =
      if decide (n ∈ reached (page w) navbarlinks)
      then marked (page w) (scrollY w + 200) n (classList w n)
      else classList w n.
Proof.
  eexists. split; [apply navbarlinksActive_fold|].
  split; [apply fold_mark_link_page|].
  split; [apply fold_mark_link_frame|].
  intros n. apply fold_mark_link_classList.
Qed.

Lemma headerScrolled_classes w :
  exists w', headerScrolled w = (w', Ok tt) /\
    page w' = page w /\ scrollY w' = scrollY w /\
    forall n c, c ∈ classList w' n <->
      if decide (decided_by_headerScrolled (page w) n c)
      then scrollY w > 100 else c ∈ classList w n.
Proof.
  unfold headerScrolled, decided_by_headerScrolled. js_run.
  destruct (querySelector (page w) "#header") as [h|],
    (querySelector (page w) "#topbar") as [t|], (Z.gtb_spec (scrollY w) 100);
    cbn; (eexists; split; [reflexivity|]); (split; [reflexivity|]);
    (split; [reflexivity|]); intros n c; cbn; unfold upd;
    repeat case_decide; set_unfold; naive_solver lia.
Qed.

Lemma toggleBacktotop_classes w :
  exists w', toggleBacktotop w = (w', Ok tt) /\
    page w' = page w /\ scrollY w' = scrollY w /\
    forall n c, c ∈ classList w' n <->
      if decide (decided_by_toggleBacktotop (page w) n c)
      then scrollY w > 100 else c ∈ classList w n.
Proof.
  unfold toggleBacktotop, decided_by_toggleBacktotop. js_run.
  destruct (querySelector (page w) ".back-to-top") as [b|];
    [destruct (Z.gtb_spec (scrollY w) 100)|];
    cbn; (eexists; split; [reflexivity|]); (split; [reflexivity|]);
    (split; [reflexivity|]); intros n c; cbn; unfold upd;
    repeat case_decide; set_unfold; naive_solver lia.
Qed.

Lemma navbarlinksActive_effects navbarlinks w w' r :
  navbarlinksActive navbarlinks w = (w', r) -> effects w' = effects w.
Proof.
  rewrite navbarlinksActive_fold. intros [= <- _]. apply fold_mark_link_frame.
Qed.

Lemma headerScrolled_effects w w' r :
  headerScrolled w = (w', r) -> effects w' = effects w.
Proof.
  unfold headerScrolled. js_run.
  destruct (querySelector (page w) "#header"), (querySelector (page w) "#topbar"),
    (scrollY w >? 100); cbn; by intros [= <- _].
Qed.

Lemma toggleBacktotop_effects w w' r :
  toggleBacktotop w = (w', r) -> effects w' = effects w.
Proof.
  unfold toggleBacktotop. js_run.
  destruct (querySelector (page w) ".back-to-top"); [destruct (scrollY w >? 100)|];
    cbn; by intros [= <- _].
Qed.

(** Without the element, the listener changes nothing at all. *)
Lemma toggleBacktotop_absent w :
  querySelector (page w) ".back-to-top" = None -> toggleBacktotop w = (w, Ok tt).
Proof. intros H. unfold toggleBacktotop. js_run. by rewrite H. Qed.

Lemma headerScrolled_absent w :
  querySelector (page w) "#header" = None ->
  querySelector (page w) "#topbar" = None ->
  headerScrolled w = (w, Ok tt).
Proof.
  intros Hh Ht. unfold headerScrolled. js_run. rewrite Hh, Ht.
  by destruct (scrollY w >? 100).
Qed.

(** ** The active navigation link *)

Lemma target_section_None p link :
  target_section p link = None <->
  hash p link = None \/ hash p link = Some EmptyString \/
  exists h, hash p link = Some h /\ querySelector p (trim h) = None.
Proof.
  unfold target_section. destruct (hash p link) as [[|c h]|]; split; intros H; auto.
  - right; right. eauto.
  - destruct H as [?|[?|(h' & [= <-] & ?)]]; done.
Qed.

(** C1, as the script has it.  A round of [navbarlinksActive] at offset
    [y] visits the captured links in order, up to the first one whose
    non-empty hash is not a selector, where it throws.  A link it gets
    past whose hash selects a section carries [active] afterwards
    exactly when [y + 200] lies in that section's span, both ends
    included; a link without a section, or one the round does not get
    past, is left as it was.  When every non-empty hash is a selector,
    the round returns and gets past every captured link. *)
Theorem navbarlinksActive_marks (w : World) (navbarlinks : list Node) :
  exists w',
    navbarlinksActive navbarlinks w = (w', round_result (page w) navbarlinks) /\
    (forall link section,
       link ∈ reached (page w) navbarlinks ->
       target_section (page w) link = Some section ->
       "active" ∈ classList w' link <-> in_span (page w) (scrollY w + 200) section) /\
    (forall link,
       link ∉ reached (page w) navbarlinks \/ target_section (page w) link = None ->
       classList w' link = classList w link) /\
    (first_malformed (page w) navbarlinks = None ->
       round_result (page w) navbarlinks = Ok tt /\
       reached (page w) navbarlinks = navbarlinks).
Proof.
  destruct (navbarlinksActive_classes navbarlinks w) as (w' & E & _ & _ & C).
  exists w'. split_and!.
  - done.
  - intros link section Hin Ht.
    rewrite C, decide_True by done. rewrite elem_of_marked, Ht. by rewrite decide_True.
  - intros link [Hout|Hno]; rewrite C; [by rewrite decide_False|].
    case_decide; [|done]. unfold marked. by rewrite Hno.
  - intros Hall. split; [unfold round_result; by rewrite Hall|].
    by apply first_malformed_reached.
Qed.

(** C1, as stated, fails: a captured link without a section keeps the
    [active] marker it had.  On the sample page the link [5] has an empty
    hash and starts out active. *)
Lemma navbarlinksActive_keeps_marker :
  ~ (forall (w : World) (navbarlinks : list Node) (link : Node),
       link ∈ navbarlinks ->
       "active" ∈ classList (fst (navbarlinksActive navbarlinks w)) link <->
       exists section,
         target_section (page w) link = Some section /\
         in_span (page w) (scrollY w + 200) section).
Proof.
  intros H.
  destruct (proj1 (H demoWorld [4%nat; 5%nat] 5%nat ltac:(set_solver)))
    as (section & Ht & _).
  - apply (bool_decide_unpack _). vm_compute. exact I.
  - vm_compute in Ht. discriminate.
Qed.

(** C9. A captured link whose hash is missing or empty, or selects no
    element, keeps its class list as it was, whether the round returns
    or throws; the round returns when every non-empty hash of a
    captured link is a selector. *)
Theorem navbarlinksActive_frame (w : World) (navbarlinks : list Node) (link : Node) :
  hash (page w) link = None \/ hash (page w) link = Some EmptyString \/
  (exists h, hash (page w) link = Some h /\ querySelector (page w) (trim h) = None) ->
  exists w' r, navbarlinksActive navbarlinks w = (w', r) /\
    classList w' link = classList w link /\
    (first_malformed (page w) navbarlinks = None -> r = Ok tt).
Proof.
  intros Hno. apply target_section_None in Hno.
  destruct (navbarlinksActive_classes navbarlinks w) as (w' & E & _ & _ & C).
  exists w', (round_result (page w) navbarlinks). split_and!.
  - done.
  - rewrite C. case_decide; [|done]. unfold marked. by rewrite Hno.
  - intros Hall. unfold round_result. by rewrite Hall.
Qed.

Lemma navbarlinksActive_marks_witness :
  (exists w', navbarlinksActive [4%nat; 5%nat] demoWorld = (w', Ok tt) /\
     ("active" ∈ classList w' 4%nat <-> in_span (page demoWorld) (250 + 200) 6%nat)) /\
  (exists w', navbarlinksActive [5%nat; 4%nat] strayWorld
                = (w', Throw (SyntaxError "#/about")) /\
     classList w' 4%nat = classList strayWorld 4%nat).
Proof.
  split.
  - destruct (navbarlinksActive_marks demoWorld [4%nat; 5%nat]) as (w' & E & H & _).
    exists w'. split; [exact E|].
    apply (H 4%nat 6%nat); [vm_compute; set_solver|reflexivity].
  - destruct (navbarlinksActive_marks strayWorld [5%nat; 4%nat]) as (w' & E & _ & H & _).
    exists w'. split; [exact E|].
    apply (H 4%nat). left. vm_compute. set_solver.
Defined.

Lemma navbarlinksActive_frame_witness :
  exists w' r, navbarlinksActive [4%nat; 5%nat] demoWorld = (w', r) /\
    classList w' 5%nat = classList demoWorld 5%nat /\ r = Ok tt.
Proof.
  destruct (navbarlinksActive_frame demoWorld [4%nat; 5%nat] 5%nat)
    as (w' & r & E & H & Hr); [right; left; reflexivity|].
  exists w', r. split; [exact E|]. split; [exact H|]. apply Hr. reflexivity.
Defined.

(** ** The menu filter *)

Lemma fold_remove_classList c ns w m :
  classList (fold_left (fun w' n =>
      set_classList (upd (classList w') n (classList w' n ∖ {[c]})) w') ns w) m =
  if decide (m ∈ ns) then classList w m ∖ {[c]} else classList w m.
Proof.
  revert w. induction ns as [|n ns IH]; intros w; cbn [fold_left].
  - by rewrite decide_False by apply not_elem_of_nil.
  - rewrite IH. cbn. unfold upd.
    destruct (decide (m = n)) as [->|Hne].
    + rewrite (decide_True (P := n ∈ n :: ns)) by apply list_elem_of_here.
      case_decide; set_solver.
    + destruct (decide (m ∈ ns)) as [Hin|Hnin].
      * by rewrite decide_True by (by apply list_elem_of_further).
      * rewrite decide_False; [done|]. rewrite elem_of_cons. tauto.
Qed.

Lemma fold_remove_frame c ns w :
  let w' := fold_left (fun w' n =>
      set_classList (upd (classList w') n (classList w' n ∖ {[c]})) w') ns w in
  page w' = page w /\ effects w' = effects w /\ event w' = event w.
Proof.
  revert w. induction ns as [|n ns IH]; intros w; cbn [fold_left]; [done|].
  by destruct (IH (set_classList (upd (classList w) n (classList w n ∖ {[c]})) w))
    as (-> & -> & ->).
Qed.

Lemma preventDefault_run w :
  exists w', preventDefault w = (w', Ok tt) /\
    page w' = page w /\ classList w' = classList w /\ effects w' = effects w /\
    canceled (event w') =
      canceled (event w) || (cancelable (event w) && negb (inPassiveListener (event w))).
Proof.
  unfold preventDefault, modify. cbn.
  destruct (cancelable _ && _); eexists; (split; [reflexivity|]); cbn;
    by rewrite ?orb_true_r, ?orb_false_r.
Qed.

(** C4. A click on a filter control leaves [filter-active] on the clicked
    control and on no other captured control, and asks the grid to
    re-arrange, once, with the control's [data-filter] attribute. *)
Theorem menuFilter_click_selects (w : World) (menuFilters : list Node) (this : Node) :
  exists w' r, menuFilter_click menuFilters this w = (w', r) /\
    (forall el, el ∈ menuFilters \/ el = this ->
       "filter-active" ∈ classList w' el <-> el = this) /\
    (forall n c, c <> "filter-active" -> c ∈ classList w' n <-> c ∈ classList w n) /\
    effects w' = effects w ++ [IsotopeArrange (getAttribute (page w) this "data-filter")].
Proof.
  unfold menuFilter_click.
  destruct (preventDefault_run w) as (w0 & E0 & P0 & C0 & F0 & _).
  erewrite bind_run by exact E0.
  erewrite bind_run by (apply forEach_fold; intros; reflexivity).
  match goal with |- context [fold_left ?f menuFilters w0] =>
    pose proof (fold_remove_frame "filter-active" menuFilters w0) as (P1 & F1 & _);
    pose proof (fold_remove_classList "filter-active" menuFilters w0) as C1;
    cbv zeta in P1, F1; set (w1 := fold_left f menuFilters w0) in *
  end.
  erewrite bind_run by reflexivity.
  erewrite bind_run by reflexivity.
  unfold widget. erewrite bind_run by reflexivity. erewrite bind_run by reflexivity.
  cbn. rewrite P1, P0, F1, F0.
  assert (
    (forall el, el ∈ menuFilters \/ el = this ->
       "filter-active" ∈ upd (classList w1) this ({["filter-active"]} ∪ classList w1 this) el
       <-> el = this) /\
    (forall n c, c <> "filter-active" ->
       c ∈ upd (classList w1) this ({["filter-active"]} ∪ classList w1 this) n
       <-> c ∈ classList w n)) as [H1 H2].
  { split; intros; unfold upd; rewrite !C1, C0; repeat case_decide; set_solver. }
  destruct (widget_fails (page w) _); do 2 eexists; (split; [reflexivity|]); done.
Qed.

(** ** Carousel indicators *)

Lemma append_assoc (a b c : string) : (a +:+ b) +:+ c = a +:+ (b +:+ c).
Proof.
  induction a as [|x a IH]; [done|].
  change (String x ((a +:+ b) +:+ c) = String x (a +:+ (b +:+ c))). by f_equal.
Qed.

Lemma append_nil_r (a : string) : a +:+ EmptyString = a.
Proof.
  induction a as [|x a IH]; [done|].
  change (String x (a +:+ EmptyString) = String x a). by f_equal.
Qed.

Lemma tokenize_from_app st a b :
  tokenize_from st (a +:+ b) =
  let (out1, st1) := tokenize_from st a in
  let (out2, st2) := tokenize_from st1 b in
  (out1 ++ out2, st2).
Proof.
  revert st. induction a as [|c a IH]; intros st.
  - change (EmptyString +:+ b) with b. cbn. by destruct (tokenize_from st b).
  - change (String c a +:+ b) with (String c (a +:+ b)). cbn [tokenize_from].
    destruct (tokenizer_step st c) as [st' out]. rewrite IH.
    destruct (tokenize_from st' a) as [out1 st1].
    destruct (tokenize_from st1 b) as [out2 st2]. by rewrite app_assoc.
Qed.

(** Decimal digits inside a single-quoted attribute value are taken
    over as they are. *)
Lemma tokenize_from_digits closing name attrs attr u value :
  tokenize_from (AttributeValue (Some "'"%char) closing name attrs attr value)
    (NilEmpty.string_of_uint u) =
  ([], AttributeValue (Some "'"%char) closing name attrs attr
         (value +:+ NilEmpty.string_of_uint u)).
Proof.
  revert value. induction u as [|u IH|u IH|u IH|u IH|u IH|u IH|u IH|u IH|u IH|u IH];
    intros value; cbn [NilEmpty.string_of_uint tokenize_from];
    [by rewrite append_nil_r|..];
    cbn [tokenizer_step Ascii.eqb Bool.eqb]; rewrite IH; unfold snoc;
    by rewrite append_assoc.
Qed.

Lemma tokenize_from_indicator index :
  tokenize_from Data (indicator index) =
  ([StartTag "li" (indicator_attrs index); EndTag "li"], Data).
Proof.
  unfold indicator, indicator_attrs, toString.
  destruct (index =? 0)%nat;
    rewrite tokenize_from_app;
    (match goal with |- context [tokenize_from Data ?s] =>
       let v := eval vm_compute in (tokenize_from Data s) in
       change (tokenize_from Data s) with v end);
    cbv beta iota; rewrite tokenize_from_app, tokenize_from_digits; reflexivity.
Qed.

Lemma tokenize_from_indicators index count :
  tokenize_from Data (indicators_from index count) =
  (flat_map (fun i => [StartTag "li" (indicator_attrs i); EndTag "li"]) (seq index count),
   Data).
Proof.
  revert index. induction count as [|count IH]; intros index; cbn [indicators_from seq flat_map].
  - reflexivity.
  - by rewrite tokenize_from_app, tokenize_from_indicator, IH.
Qed.

Lemma parsed_elements_indicators index count :
  parsed_elements (tokenize (indicators_from index count)) =
  map (fun i => ("li", indicator_attrs i)) (seq index count).
Proof.
  unfold tokenize. rewrite tokenize_from_indicators. cbn [fst].
  generalize (seq index count) as l. induction l as [|i l IH]; [done|].
  cbn [flat_map app parsed_elements map]. by f_equal.
Qed.

Lemma indicator_attrs_slide index :
  attribute "data-bs-target" (indicator_attrs index) = Some "#heroCarousel" /\
  attribute "data-bs-slide-to" (indicator_attrs index) = Some (toString index).
Proof. done. Qed.

Lemma indicator_attrs_active index :
  has_class "active" (indicator_attrs index) = true <-> index = 0%nat.
Proof.
  unfold indicator_attrs, has_class. destruct index; cbn; [|done].
  split; [done|]. intros _. vm_compute. reflexivity.
Qed.

(** With the host present, the loop appends one indicator per slide. *)
Lemma forEach_from_indicators {A} host (items : list A) index w :
  exists w',
    forEach_from index items (fun _ index =>
      let indicator := indicator index in
      innerHTML_append host indicator) w = (w', Ok tt) /\
    page w' = page w /\ effects w' = effects w /\ classList w' = classList w /\
    innerHTML w' host = innerHTML w host +:+ indicators_from index (length items) /\
    forall n, n <> host -> innerHTML w' n = innerHTML w n.
Proof.
  revert index w. induction items as [|item items IH]; intros index w;
    cbn [forEach_from length indicators_from].
  - exists w. by rewrite append_nil_r.
  - erewrite bind_run by reflexivity.
    match goal with |- context [forEach_from _ _ _ ?w1] =>
      destruct (IH (S index) w1) as (w' & E & P & F & C & H & Hn) end.
    exists w'. split; [exact E|]. cbn in P, F, C, H, Hn.
    rewrite upd_eq in H. split_and!; try done.
    + by rewrite H, append_assoc.
    + intros n Hne. rewrite Hn by done. by rewrite upd_ne.
Qed.

(** C3. With the indicator host present, the builder appends to it the
    markup of exactly one [li] element per slide; the element for slide
    [i] comes [i]-th and names slide [i], and only the element for slide
    0 carries [active]. *)
Theorem initCarouselIndicators_builds (w : World) (host : Node) :
  querySelector (page w) "#hero-carousel-indicators" = Some host ->
  exists w' built,
    initCarouselIndicators w = (w', Ok tt) /\
    innerHTML w' host = innerHTML w host +:+ built /\
    let slides := querySelectorAll (page w) "#heroCarousel .carousel-item" in
    let indicators := parsed_elements (tokenize built) in
    length indicators = length slides /\
    forall i, (i < length slides)%nat ->
      exists attrs,
        indicators !! i = Some ("li", attrs) /\
        attribute "data-bs-slide-to" attrs = Some (toString i) /\
        (has_class "active" attrs = true <-> i = 0%nat).
Proof.
  intros Hhost. unfold initCarouselIndicators.
  erewrite bind_run by reflexivity.
  erewrite bind_run by (apply select_some; exact Hhost).
  erewrite bind_run by reflexivity. cbv beta iota. trim_literals. cbn [page set_effects].
  set (slides := querySelectorAll (page w) "#heroCarousel .carousel-item").
  match goal with |- context [forEach _ _ ?w1] =>
    destruct (forEach_from_indicators host slides 0 w1) as (w' & E & _ & _ & _ & H & _) end.
  exists w', (indicators_from 0 (length slides)).
  split; [exact E|]. split; [exact H|]. cbv zeta.
  rewrite parsed_elements_indicators. split; [by rewrite length_map, length_seq|].
  intros i Hi. exists (indicator_attrs i). split_and!.
  - rewrite list_lookup_fmap, lookup_seq_lt by done. reflexivity.
  - apply indicator_attrs_slide.
  - apply indicator_attrs_active.
Qed.

Lemma initCarouselIndicators_builds_witness :
  exists w' built,
    initCarouselIndicators demoWorld = (w', Ok tt) /\
    innerHTML w' 9%nat = innerHTML demoWorld 9%nat +:+ built /\
    length (parsed_elements (tokenize built)) = 3%nat.
Proof.
  destruct (initCarouselIndicators_builds demoWorld 9%nat eq_refl)
    as (w' & built & E & H & Hlen & _).
  exists w', built. split; [exact E|]. split; [exact H|]. exact Hlen.
Defined.

(** C10. Without the indicator host, and with at least one slide, the
    builder throws a [TypeError] at the first slide; the scroll toggles,
    in contrast, return normally when their elements are missing. *)
Theorem initCarouselIndicators_without_host (w : World) :
  querySelector (page w) "#hero-carousel-indicators" = None ->
  querySelectorAll (page w) "#heroCarousel .carousel-item" <> [] ->
  (exists w' msg,
     initCarouselIndicators w = (w', Throw (TypeError msg)) /\
     innerHTML w' = innerHTML w) /\
  (querySelector (page w) "#header" = None ->
   querySelector (page w) "#topbar" = None ->
   headerScrolled w = (w, Ok tt)) /\
  (querySelector (page w) ".back-to-top" = None -> toggleBacktotop w = (w, Ok tt)).
Proof.
  intros Hhost Hslides. split; [|split].
  - unfold initCarouselIndicators.
    erewrite bind_run by reflexivity.
    erewrite bind_run by (apply select_none; [reflexivity|exact Hhost]).
    erewrite bind_run by reflexivity. cbv beta iota. trim_literals. cbn [page set_effects].
    destruct (querySelectorAll (page w) "#heroCarousel .carousel-item") as [|item items];
      [done|].
    do 2 eexists. split; reflexivity.
  - apply headerScrolled_absent.
  - apply toggleBacktotop_absent.
Qed.

Lemma initCarouselIndicators_without_host_witness :
  exists w' msg,
    initCarouselIndicators (demoWorldWith [] (fun _ => None)) = (w', Throw (TypeError msg)).
Proof.
  destruct (initCarouselIndicators_without_host (demoWorldWith [] (fun _ => None)))
    as [(w' & msg & E & _) _]; [reflexivity|discriminate|].
  exists w', msg. exact E.
Defined.

(** ** The load listener *)

Lemma returns {A} (m : M A) (w : World) (r : Result A) :
  snd (m w) = r -> m w = (fst (m w), r).
Proof. intros <-. apply surjective_pairing. Qed.

Create HintDb quiet discriminated.

Lemma quiet_ret {A} (a : A) : quiet (ret a).
Proof. intros w w' r [= <- _]. done. Qed.

Lemma quiet_throw {A} e : quiet (throw (A := A) e).
Proof. intros w w' r [= <- _]. done. Qed.

Lemma quiet_gets {A} (f : World -> A) : quiet (gets f).
Proof. intros w w' r [= <- _]. done. Qed.

Lemma quiet_bind {A B} (m : M A) (f : A -> M B) :
  quiet m -> (forall a, quiet (f a)) -> quiet (bind m f).
Proof.
  intros Hm Hf w w' r. unfold bind. destruct (m w) as [w1 [a|e]] eqn:E.
  - intros H. destruct (Hm _ _ _ E) as [<- <-]. by apply (Hf a) in H.
  - intros [= <- _]. by apply Hm in E.
Qed.

Lemma quiet_forEach_from {A} (xs : list A) (f : A -> nat -> M unit) index :
  (forall x i, quiet (f x i)) -> quiet (forEach_from index xs f).
Proof.
  intros Hf. revert index. induction xs as [|x xs IH]; intros index; cbn [forEach_from].
  - apply quiet_ret.
  - apply quiet_bind; [apply Hf|]. intros _. apply IH.
Qed.

Lemma quiet_forEach {A} (xs : list A) (f : A -> nat -> M unit) :
  (forall x i, quiet (f x i)) -> quiet (forEach xs f).
Proof. apply quiet_forEach_from. Qed.

Lemma quiet_addEventListener t ty h passive : quiet (addEventListener t ty h passive).
Proof. intros w w' r [= <- _]. done. Qed.

Lemma quiet_innerHTML_append n markup : quiet (innerHTML_append n markup).
Proof. intros w w' r [= <- _]. done. Qed.

Lemma quiet_select el : quiet (select el).
Proof. by intros w w' r ->%select_world. Qed.

Lemma quiet_select_all el : quiet (select_all el).
Proof. by intros w w' r ->%select_all_world. Qed.

Lemma quiet_emit e : is_entry e = false -> quiet (emit e).
Proof.
  intros He w w' r [= <- _]. split; [done|]. unfold entered. cbn.
  rewrite List.filter_app. cbn. rewrite He. apply app_nil_r.
Qed.

#[local] Hint Resolve quiet_ret quiet_throw quiet_gets quiet_addEventListener
  quiet_innerHTML_append quiet_select quiet_select_all : quiet.
#[local] Hint Extern 2 (quiet (bind _ _)) => apply quiet_bind; [|intros] : quiet.
#[local] Hint Extern 2 (quiet (forEach _ _)) => apply quiet_forEach; intros : quiet.
#[local] Hint Extern 2 (quiet (emit _)) => apply quiet_emit; reflexivity : quiet.
#[local] Hint Extern 3 (quiet (match ?x with _ => _ end)) => destruct x : quiet.

Lemma quiet_widget call : is_entry call = false -> quiet (widget call).
Proof. intros He. unfold widget. apply quiet_bind; [by apply quiet_emit|]. auto 6 with quiet. Qed.

Lemma quiet_on ty el h all : quiet (on ty el h all).
Proof. unfold on. auto 8 with quiet. Qed.

#[local] Hint Resolve quiet_on : quiet.
#[local] Hint Extern 2 (quiet (widget _)) => apply quiet_widget; reflexivity : quiet.

(** A function that announces itself and is quiet afterwards. *)
Lemma enters_emit e (m : M unit) :
  is_entry e = true -> quiet m -> enters e (emit e ;; m).
Proof.
  intros Hentry Hm w w' r. unfold bind. cbn. intros H.
  destruct (m _) as [w1 [[]|e']] eqn:E; injection H as <- <-;
    apply Hm in E as [Hp He]; (split; [exact Hp|]);
    rewrite He; unfold entered; cbn; rewrite List.filter_app; cbn; by rewrite Hentry.
Qed.

Lemma enters_initNavbar : enters (Enter InitNavbar) initNavbar.
Proof. apply enters_emit; [done|]. auto 8 with quiet. Qed.

Lemma enters_initScrollFunctions : enters (Enter InitScrollFunctions) initScrollFunctions.
Proof. apply enters_emit; [done|]. auto 8 with quiet. Qed.

Lemma enters_initCarouselIndicators : enters (Enter InitCarouselIndicators) initCarouselIndicators.
Proof.
  apply enters_emit; [done|].
  apply quiet_bind; [auto with quiet|intros host].
  apply quiet_bind; [auto with quiet|intros items].
  apply quiet_forEach. intros item index. cbv zeta. destruct host; auto with quiet.
Qed.

Lemma enters_initMenuIsotope : enters (Enter InitMenuIsotope) initMenuIsotope.
Proof. apply enters_emit; [done|]. auto 10 with quiet. Qed.

Lemma enters_initSwipers : enters (Enter InitSwipers) initSwipers.
Proof. apply enters_emit; [done|]. auto 8 with quiet. Qed.

Lemma enters_initGLightbox : enters (Enter InitGLightbox) initGLightbox.
Proof. apply enters_emit; [done|]. auto 8 with quiet. Qed.

Lemma enters_initializers :
  Forall (fun '(i, init) => enters (Enter i) init) initializers.
Proof.
  unfold initializers.
  repeat (apply List.Forall_cons;
    [first [ exact enters_initNavbar | exact enters_initScrollFunctions
           | exact enters_initCarouselIndicators | exact enters_initMenuIsotope
           | exact enters_initSwipers | exact enters_initGLightbox ]|]).
  apply List.Forall_nil.
Qed.

Lemma enters_scrollTo el : enters (EnterScrollTo el) (scrollTo el).
Proof. apply enters_emit; [done|]. auto 10 with quiet. Qed.

Lemma handleHashOnLoad_entered w w' r :
  handleHashOnLoad w = (w', r) ->
  entered w' = entered w ++
    (if fragment_target (page w) then [EnterScrollTo (location_hash (page w))] else []).
Proof.
  unfold handleHashOnLoad, fragment_target.
  erewrite bind_run by reflexivity.
  destruct (location_hash (page w)) as [|c h].
  - intros [= <- _]. by rewrite app_nil_r.
  - destruct (valid_selector (page w) (trim (String c h))) eqn:Hv.
    + erewrite bind_run by (by apply select_run).
      destruct (querySelector (page w) (trim (String c h))) as [target|].
      * rewrite bool_decide_true by eauto. intros H.
        by apply enters_scrollTo in H as [_ ?].
      * rewrite bool_decide_false by (by intros [? ?]). intros [= <- _].
        by rewrite app_nil_r.
    + erewrite bind_throw by (by apply select_throw).
      rewrite querySelector_invalid by done.
      rewrite bool_decide_false by (by intros [? ?]). intros [= <- _].
      by rewrite app_nil_r.
Qed.

(** *** Statement sequences *)

Lemma sequence_app ms1 ms2 w :
  sequence (ms1 ++ ms2) w = (sequence ms1 ;; sequence ms2) w.
Proof.
  revert w. induction ms1 as [|m ms1 IH]; intros w; cbn [sequence app].
  - reflexivity.
  - unfold bind. destruct (m w) as [w1 [[]|e]]; [|done]. by rewrite IH.
Qed.

Lemma sequence_abort pre m post w wk wt e :
  sequence pre w = (wk, Ok tt) ->
  m wk = (wt, Throw e) ->
  sequence (pre ++ m :: post) w = (wt, Throw e).
Proof.
  intros Hpre Hm. rewrite sequence_app. erewrite bind_run by exact Hpre.
  cbn [sequence]. by erewrite bind_throw.
Qed.

Lemma sequence_entered (l : list (Initializer * M unit)) :
  Forall (fun '(i, init) => enters (Enter i) init) l ->
  forall w w', sequence (map snd l) w = (w', Ok tt) ->
    page w' = page w /\ entered w' = entered w ++ map Enter (map fst l).
Proof.
  induction 1 as [|[i init] l Hi _ IH]; intros w w'; cbn [map sequence fst snd].
  - intros [= <-]. by rewrite app_nil_r.
  - unfold bind. destruct (init w) as [w1 [[]|e]] eqn:E; [|done].
    intros H. apply Hi in E as [E1 E2]. apply IH in H as [H1 H2].
    split; [congruence|]. by rewrite H2, E2, <- app_assoc.
Qed.

(** A sequence either runs through, or has a first statement that
    throws. *)
Lemma sequence_cases (l : list (Initializer * M unit)) w :
  (exists w', sequence (map snd l) w = (w', Ok tt)) \/
  (exists k i init wk wt e,
     l !! k = Some (i, init) /\
     sequence (map snd (take k l)) w = (wk, Ok tt) /\
     init wk = (wt, Throw e)).
Proof.
  revert w. induction l as [|[i init] l IH]; intros w; cbn [map sequence snd].
  - left. by eexists.
  - destruct (init w) as [w1 [[]|e]] eqn:E.
    + destruct (IH w1) as [[w' H]|(k & i' & init' & wk & wt & e & Hk & Hpre & Hthrow)].
      * left. exists w'. by erewrite bind_run.
      * right. exists (S k), i', init', wk, wt, e. split; [done|]. split; [|done].
        cbn [take map sequence snd]. by erewrite bind_run.
    + right. exists 0%nat, i, init, w, w1, e. done.
Qed.

Lemma onLoad_sequence w :
  onLoad w = sequence (map snd initializers ++ [handleHashOnLoad]) w.
Proof.
  unfold onLoad, initializers. cbn [map snd app sequence]. unfold bind.
  repeat match goal with
  | |- context [match ?m w with _ => _ end] => destruct (m w) as [? [[]|?]]; [|done]
  | |- context [match ?m ?w' with _ => _ end] =>
      is_var w'; destruct (m w') as [? [[]|?]]; [|done]
  end.
  done.
Qed.

(** C7, as the script has it.  The load listener enters the six
    initializers in their fixed order.  If one of them throws, the
    listener ends there with that exception: nothing after it is
    entered.  If all six return, the helper is entered afterwards, once
    and for the URL's fragment, exactly when the fragment is not empty
    and, handed to the query as a selector, selects an element; when
    the fragment is not a selector, the listener ends in the
    [SyntaxError] of the query. *)
Theorem onLoad_order (w : World) :
  (forall k i init wk wt e,
     initializers !! k = Some (i, init) ->
     sequence (map snd (take k initializers)) w = (wk, Ok tt) ->
     init wk = (wt, Throw e) ->
     onLoad w = (wt, Throw e) /\
     entered wt = entered w ++ map Enter (map fst (take (S k) initializers))) /\
  (forall w6,
     sequence (map snd initializers) w = (w6, Ok tt) ->
     exists w' r, onLoad w = (w', r) /\
       entered w' = entered w ++
         [Enter InitNavbar; Enter InitScrollFunctions; Enter InitCarouselIndicators;
          Enter InitMenuIsotope; Enter InitSwipers; Enter InitGLightbox] ++
         (if fragment_target (page w)
          then [EnterScrollTo (location_hash (page w))] else [])) /\
  (forall w6,
     sequence (map snd initializers) w = (w6, Ok tt) ->
     location_hash (page w) <> EmptyString ->
     valid_selector (page w) (trim (location_hash (page w))) = false ->
     fragment_target (page w) = false /\
     onLoad w = (w6, Throw (SyntaxError (trim (location_hash (page w)))))) /\
  ((exists w6, sequence (map snd initializers) w = (w6, Ok tt)) \/
   (exists k i init wk wt e,
      initializers !! k = Some (i, init) /\
      sequence (map snd (take k initializers)) w = (wk, Ok tt) /\
      init wk = (wt, Throw e))).
Proof.
  split_and!.
  - intros k i init wk wt e Hk Hpre Hthrow.
    pose proof (take_drop_middle _ _ _ Hk) as Hsplit.
    assert (Hpre' := Hpre).
    apply sequence_entered in Hpre' as [Hp He];
      [|apply Forall_take, enters_initializers].
    assert (Hi : enters (Enter i) init).
    { pose proof enters_initializers as Hall. rewrite Forall_lookup in Hall.
      apply (Hall k (i, init) Hk). }
    destruct (Hi _ _ _ Hthrow) as [_ Het].
    split.
    + rewrite onLoad_sequence, <- Hsplit. rewrite map_app. cbn [map snd].
      rewrite <- app_assoc. cbn [app]. by eapply sequence_abort.
    + erewrite take_S_r by exact Hk. rewrite !map_app, Het, He. cbn [map fst].
      by rewrite <- app_assoc.
  - intros w6 H6. rewrite onLoad_sequence, sequence_app.
    erewrite bind_run by exact H6. cbn [sequence].
    apply sequence_entered in H6 as [Hp He]; [|apply enters_initializers].
    unfold bind. destruct (handleHashOnLoad w6) as [w7 r] eqn:E.
    apply handleHashOnLoad_entered in E. rewrite Hp, He in E.
    exists w7, (match r with Ok _ => Ok tt | Throw e => Throw e end).
    split; [by destruct r as [[]|]|].
    by rewrite E, <- app_assoc.
  - intros w6 H6 Hfrag Hv. split.
    { unfold fragment_target. destruct (location_hash (page w)); [done|].
      rewrite querySelector_invalid by done.
      apply bool_decide_false. by intros [? ?]. }
    rewrite onLoad_sequence, sequence_app.
    erewrite bind_run by exact H6. cbn [sequence].
    apply sequence_entered in H6 as [Hp _]; [|apply enters_initializers].
    erewrite bind_throw; [reflexivity|].
    unfold handleHashOnLoad. erewrite bind_run by reflexivity. rewrite Hp.
    destruct (location_hash (page w)) as [|c h]; [done|].
    erewrite bind_throw; [reflexivity|]. apply select_throw. by rewrite Hp.
  - apply sequence_cases.
Qed.

(** C7, as stated, fails: the listener takes the fragment for a
    selector, not for an id.  On the sample page whose URL ends in
    [#about.intro] no element has the id [about.intro], but the
    selector finds the section with id [about] and class [intro]: the
    six initializers return and the helper is entered.  (The other way
    round, on the sample page renamed to the year 2024 the element with
    the id of the fragment [#2024] is there, and the helper is not
    entered: the query throws.) *)
Lemma onLoad_fragment_as_selector :
  ~ (forall w w6 : World,
       sequence (map snd initializers) w = (w6, Ok tt) ->
       entered (fst (onLoad w)) = entered w ++
         [Enter InitNavbar; Enter InitScrollFunctions; Enter InitCarouselIndicators;
          Enter InitMenuIsotope; Enter InitSwipers; Enter InitGLightbox] ++
         match location_hash (page w), fragment_element (page w) with
         | String _ _, Some _ => [EnterScrollTo (location_hash (page w))]
         | _, _ => []
         end).
Proof.
  intros H.
  specialize (H introWorld (fst (sequence (map snd initializers) introWorld))).
  assert (Hsix : sequence (map snd initializers) introWorld
                 = (fst (sequence (map snd initializers) introWorld), Ok tt))
    by (apply returns; vm_compute; reflexivity).
  specialize (H Hsix). vm_compute in H. discriminate H.
Qed.

Lemma onLoad_order_witness :
  (exists wt e,
     onLoad (demoWorldWith [9%nat] lightboxFails) = (wt, Throw e) /\
     entered wt =
       [Enter InitNavbar; Enter InitScrollFunctions; Enter InitCarouselIndicators;
        Enter InitMenuIsotope; Enter InitSwipers; Enter InitGLightbox]) /\
  (exists w' r,
     onLoad demoWorld = (w', r) /\
     entered w' =
       [Enter InitNavbar; Enter InitScrollFunctions; Enter InitCarouselIndicators;
        Enter InitMenuIsotope; Enter InitSwipers; Enter InitGLightbox;
        EnterScrollTo "#about"]) /\
  (exists w', onLoad yearWorld = (w', Throw (SyntaxError "#2024"))).
Proof.
  split_and!.
  - set (w := demoWorldWith [9%nat] lightboxFails).
    set (pre := sequence (map snd (take 5 initializers))).
    destruct (proj1 (onLoad_order w) 5%nat InitGLightbox initGLightbox
                (fst (pre w)) (fst (initGLightbox (fst (pre w))))
                (WidgetError "GLightbox is not defined")) as [E H].
    + reflexivity.
    + apply returns. vm_compute. reflexivity.
    + apply returns. vm_compute. reflexivity.
    + do 2 eexists. split; [exact E|exact H].
  - set (all := sequence (map snd initializers)).
    destruct (proj1 (proj2 (onLoad_order demoWorld)) (fst (all demoWorld)))
      as (w' & r & E & H).
    + apply returns. vm_compute. reflexivity.
    + exists w', r. split; [exact E|exact H].
  - set (all := sequence (map snd initializers)).
    destruct (proj1 (proj2 (proj2 (onLoad_order yearWorld))) (fst (all yearWorld)))
      as [_ E].
    + apply returns. vm_compute. reflexivity.
    + discriminate.
    + reflexivity.
    + eexists. exact E.
Defined.

(** ** The dropdown links *)

(** What holds of the dropdown listener by itself: outside mobile mode it
    does nothing; in mobile mode it flips [dropdown-active] on the
    submenu. *)
Lemma dropdown_click_desktop w navbar this :
  querySelector (page w) "#navbar" = Some navbar ->
  "navbar-mobile" ∉ classList w navbar ->
  dropdown_click this w = (w, Ok tt).
Proof.
  intros Hnav Hmobile. unfold dropdown_click.
  erewrite bind_run
    by (apply select_some; exact Hnav).
  cbv beta iota. erewrite bind_run by reflexivity.
  by rewrite bool_decide_false.
Qed.

Lemma dropdown_click_mobile w navbar this sibling :
  querySelector (page w) "#navbar" = Some navbar ->
  "navbar-mobile" ∈ classList w navbar ->
  nextElementSibling (page w) this = Some sibling ->
  exists w', dropdown_click this w = (w', Ok tt) /\
    ("dropdown-active" ∈ classList w' sibling <-> "dropdown-active" ∉ classList w sibling) /\
    canceled (event w') =
      canceled (event w) || (cancelable (event w) && negb (inPassiveListener (event w))).
Proof.
  intros Hnav Hmobile Hsib. unfold dropdown_click.
  erewrite bind_run
    by (apply select_some; exact Hnav).
  cbv beta iota. erewrite bind_run by reflexivity.
  rewrite bool_decide_true by done.
  destruct (preventDefault_run w) as (w0 & E0 & P0 & C0 & _ & Hc).
  erewrite bind_run by exact E0.
  erewrite bind_run by (unfold gets; rewrite P0, Hsib; reflexivity).
  cbv beta iota. rewrite classList_toggle_run. eexists. split; [reflexivity|].
  split; [|exact Hc].
  cbn. rewrite upd_eq, elem_of_toggled, C0. naive_solver.
Qed.

(** *** Passive listeners cannot cancel *)

Create HintDb passive discriminated.

Lemma passive_safe_ret {A} (a : A) : passive_safe (ret a).
Proof. by intros w w' r [= <- _]. Qed.

Lemma passive_safe_throw {A} e : passive_safe (throw (A := A) e).
Proof. by intros w w' r [= <- _]. Qed.

Lemma passive_safe_gets {A} (f : World -> A) : passive_safe (gets f).
Proof. by intros w w' r [= <- _]. Qed.

Lemma passive_safe_modify (f : World -> World) :
  (forall w, event (f w) = event w) -> passive_safe (modify f).
Proof. intros Hf w w' r [= <- _] _. apply Hf. Qed.

Lemma passive_safe_preventDefault : passive_safe preventDefault.
Proof.
  intros w w' r [= <- _] Hp. by rewrite Hp, andb_false_r.
Qed.

Lemma passive_safe_bind {A B} (m : M A) (f : A -> M B) :
  passive_safe m -> (forall a, passive_safe (f a)) -> passive_safe (bind m f).
Proof.
  intros Hm Hf w w' r. unfold bind. destruct (m w) as [w1 [a|e]] eqn:E.
  - intros H Hp. pose proof (Hm _ _ _ E Hp) as E1.
    rewrite <- E1. apply (Hf a _ _ _ H). by rewrite E1.
  - intros [= <- _] Hp. by apply (Hm _ _ _ E).
Qed.

Lemma passive_safe_forEach {A} (xs : list A) (f : A -> nat -> M unit) :
  (forall x i, passive_safe (f x i)) -> passive_safe (forEach xs f).
Proof.
  intros Hf. unfold forEach. generalize 0%nat as index.
  induction xs as [|x xs IH]; intros index; cbn [forEach_from].
  - apply passive_safe_ret.
  - apply passive_safe_bind; [apply Hf|]. intros _. apply IH.
Qed.

#[local] Hint Resolve passive_safe_ret passive_safe_throw passive_safe_gets
  passive_safe_preventDefault : passive.
#[local] Hint Extern 2 (passive_safe (bind _ _)) =>
  apply passive_safe_bind; [|intros] : passive.
#[local] Hint Extern 2 (passive_safe (forEach _ _)) =>
  apply passive_safe_forEach; intros : passive.
#[local] Hint Extern 2 (passive_safe (modify _)) =>
  apply passive_safe_modify; reflexivity : passive.
#[local] Hint Extern 3 (passive_safe (match ?x with _ => _ end)) => destruct x : passive.

Lemma passive_safe_select el : passive_safe (select el).
Proof. by intros w w' r ->%select_world. Qed.

Lemma passive_safe_select_all el : passive_safe (select_all el).
Proof. by intros w w' r ->%select_all_world. Qed.

Lemma passive_safe_emit e : passive_safe (emit e).
Proof. by apply passive_safe_modify. Qed.

Lemma passive_safe_classList_add n c : passive_safe (classList_add n c).
Proof. by apply passive_safe_modify. Qed.

Lemma passive_safe_classList_remove n c : passive_safe (classList_remove n c).
Proof. by apply passive_safe_modify. Qed.

Lemma passive_safe_classList_contains n c : passive_safe (classList_contains n c).
Proof. apply passive_safe_gets. Qed.

Lemma passive_safe_addEventListener t ty h p : passive_safe (addEventListener t ty h p).
Proof. by apply passive_safe_modify. Qed.

Lemma passive_safe_innerHTML_append n markup : passive_safe (innerHTML_append n markup).
Proof. by apply passive_safe_modify. Qed.

#[local] Hint Resolve passive_safe_select passive_safe_select_all passive_safe_emit
  passive_safe_classList_add passive_safe_classList_remove passive_safe_classList_contains
  passive_safe_addEventListener passive_safe_innerHTML_append : passive.

Lemma passive_safe_classList_toggle n c : passive_safe (classList_toggle n c).
Proof. unfold classList_toggle. auto 6 with passive. Qed.

Lemma passive_safe_widget call : passive_safe (widget call).
Proof. unfold widget. auto 8 with passive. Qed.

Lemma passive_safe_on ty el h all : passive_safe (on ty el h all).
Proof. unfold on. auto 8 with passive. Qed.

#[local] Hint Resolve passive_safe_classList_toggle passive_safe_widget passive_safe_on
  : passive.

Lemma passive_safe_scrollTo el : passive_safe (scrollTo el).
Proof. unfold scrollTo. auto 12 with passive. Qed.

#[local] Hint Resolve passive_safe_scrollTo : passive.

Lemma passive_safe_initCarouselIndicators : passive_safe initCarouselIndicators.
Proof.
  unfold initCarouselIndicators.
  apply passive_safe_bind; [auto with passive|intros _].
  apply passive_safe_bind; [auto with passive|intros host].
  apply passive_safe_bind; [auto with passive|intros items].
  apply passive_safe_forEach. intros item index. cbv zeta.
  destruct host; auto 6 with passive.
Qed.

Lemma passive_safe_onLoad : passive_safe onLoad.
Proof.
  unfold onLoad.
  apply passive_safe_bind; [unfold initNavbar; auto 8 with passive|intros _].
  apply passive_safe_bind; [unfold initScrollFunctions; auto 10 with passive|intros _].
  apply passive_safe_bind; [apply passive_safe_initCarouselIndicators|intros _].
  apply passive_safe_bind; [unfold initMenuIsotope; auto 10 with passive|intros _].
  apply passive_safe_bind; [unfold initSwipers; auto 8 with passive|intros _].
  apply passive_safe_bind; [unfold initGLightbox; auto 8 with passive|intros _].
  unfold handleHashOnLoad. auto 10 with passive.
Qed.

Lemma passive_safe_runHandler h this : passive_safe (runHandler h this).
Proof.
  destruct h, this; cbn [runHandler]; try apply passive_safe_throw;
    try apply passive_safe_onLoad;
    unfold mobileNavToggle_click, dropdown_click, scrollto_click, navbarlinksActive,
      headerScrolled, toggleBacktotop, menuFilter_click;
    auto 14 with passive.
Qed.

(** Delivered to a passive listener, an event comes back with its
    canceled flag as it was. *)
Lemma invoke_passive l w :
  l_passive l = true ->
  exists w', invoke l w = (w', Ok tt) /\ canceled (event w') = canceled (event w).
Proof.
  intros Hp. unfold invoke. rewrite Hp.
  erewrite bind_run by reflexivity.
  destruct (runHandler _ _ _) as [w1 r] eqn:E.
  pose proof (passive_safe_runHandler _ _ _ _ _ E eq_refl) as E'.
  destruct r as [[]|e]; eexists; (split; [reflexivity|]); cbn; by rewrite E'.
Qed.

(** Every listener of the script is registered by [on] or directly with
    [{ passive: true }]; a dispatch that meets only passive listeners
    reports that the default action was not prevented. *)
Lemma dispatchEvent_passive ty t w :
  Forall (fun l => l_passive l = true) (listeners w) ->
  exists w', dispatchEvent ty t w = (w', Ok true).
Proof.
  intros Hall. unfold dispatchEvent.
  erewrite bind_run by reflexivity.
  erewrite bind_run by reflexivity. cbn [listeners set_event].
  assert (Hls : Forall (fun l => l_passive l = true)
                  (List.filter (listens ty t) (listeners w))).
  { apply List.Forall_forall. intros l [Hin _]%List.filter_In.
    by apply (proj1 (List.Forall_forall _ _) Hall). }
  assert (Hloop : forall ls index w0,
    Forall (fun l => l_passive l = true) ls ->
    exists w1, forEach_from index ls (fun l _ => invoke l) w0 = (w1, Ok tt) /\
      canceled (event w1) = canceled (event w0)).
  { induction ls as [|l ls IH]; intros index w0 Hp; cbn [forEach_from].
    - by eexists.
    - apply Forall_cons in Hp as [Hl Hp].
      destruct (invoke_passive l w0 Hl) as (w1 & E1 & C1).
      destruct (IH (S index) w1 Hp) as (w2 & E2 & C2).
      exists w2. split; [by erewrite bind_run by exact E1|congruence]. }
  match goal with |- context [bind (forEach _ _) _ ?w0] =>
    destruct (Hloop _ 0%nat w0 Hls) as (w1 & E & C) end.
  erewrite bind_run by exact E. unfold gets. rewrite C. by eexists.
Qed.

(** C8, at the failing input.  On the sample page the navbar is in mobile
    mode.  After [initNavbar], a click on the dropdown link [7] flips
    [dropdown-active] on its submenu [8], but the dispatch reports that
    the default action was not prevented: the listener is passive, so
    its call of [preventDefault] has no effect. *)
Theorem dropdown_click_default_not_prevented :
  let w := fst (initNavbar demoWorld) in
  let click := dispatchEvent Click (Elem 7%nat) w in
  ("navbar-mobile" ∈ classList w 2%nat) /\
  ((mkListener (Elem 7%nat) Click DropdownClick true) ∈ listeners w) /\
  ("dropdown-active" ∉ classList w 8%nat) /\
  ("dropdown-active" ∈ classList (fst click) 8%nat) /\
  snd click = Ok true /\
  canceled (event (fst click)) = false.
Proof.
  cbv zeta. split_and!.
  - apply (bool_decide_unpack _). vm_compute. exact I.
  - vm_compute. set_solver.
  - apply (bool_decide_unpack _). vm_compute. exact I.
  - apply (bool_decide_unpack _). vm_compute. exact I.
  - vm_compute. reflexivity.
  - vm_compute. reflexivity.
Qed.

(** ** From listeners to events *)

(** A listener is invoked without a trace other than its own and the
    report of the exception it ended in. *)
Lemma invoke_run l w w1 r :
  runHandler (l_handler l) (l_target l)
    (set_event (mkEvent (cancelable (event w)) (l_passive l) (canceled (event w))) w)
  = (w1, r) ->
  exists w2, invoke l w = (w2, Ok tt) /\
    page w2 = page w1 /\ scrollY w2 = scrollY w1 /\ classList w2 = classList w1 /\
    effects w2 = effects w1 ++ reported r.
Proof.
  intros H. unfold invoke. erewrite bind_run by reflexivity.
  cbn [set_passive modify fst]. rewrite H.
  destruct r as [[]|e]; eexists; (split; [reflexivity|]); cbn; by rewrite ?app_nil_r.
Qed.

Lemma initScrollFunctions_listeners w :
  exists w', initScrollFunctions w = (w', Ok tt) /\
    page w' = page w /\
    listeners w' =
      listeners w ++ scrollListenersOf (querySelectorAll (page w) "#navbar .scrollto").
Proof.
  unfold initScrollFunctions. js_run. eexists. split; [reflexivity|]. split; [done|].
  cbn. by rewrite <- !app_assoc.
Qed.

(** A scroll event on a window that carries the three scroll listeners
    runs all three, whatever the first one ends in: the class lists are
    those the three leave in turn, and an exception of the round over
    the links is reported. *)
Lemma dispatchEvent_scroll w navbarlinks :
  List.filter (listens Scroll Window) (listeners w) = scrollListenersOf navbarlinks ->
  exists w',
    dispatchEvent Scroll Window w = (w', Ok true) /\
    page w' = page w /\
    effects w' = effects w ++ reported (round_result (page w) navbarlinks) /\
    forall n c, c ∈ classList w' n <->
      if decide (decided_by_toggleBacktotop (page w) n c) then scrollY w > 100
      else if decide (decided_by_headerScrolled (page w) n c) then scrollY w > 100
      else c ∈ (if decide (n ∈ reached (page w) navbarlinks)
                then marked (page w) (scrollY w + 200) n (classList w n)
                else classList w n).
Proof.
  intros Hls.
  set (w0 := set_event (mkEvent (is_cancelable Scroll) false false) w).
  set (enter := fun v : World =>
         set_event (mkEvent (cancelable (event v)) true (canceled (event v))) v).
  destruct (navbarlinksActive_classes navbarlinks (enter w0)) as (b1 & Eb1 & Pb1 & Yb1 & Cb1).
  destruct (invoke_run (mkListener Window Scroll (NavbarlinksActive navbarlinks) true)
              w0 b1 _ Eb1) as (c1 & Ec1 & Pc1 & Yc1 & Cc1 & Fc1).
  destruct (headerScrolled_classes (enter c1)) as (b2 & Eb2 & Pb2 & Yb2 & Cb2).
  destruct (invoke_run (mkListener Window Scroll HeaderScrolled true)
              c1 b2 _ Eb2) as (c2 & Ec2 & Pc2 & Yc2 & Cc2 & Fc2).
  destruct (toggleBacktotop_classes (enter c2)) as (b3 & Eb3 & Pb3 & Yb3 & Cb3).
  destruct (invoke_run (mkListener Window Scroll ToggleBacktotop true)
              c2 b3 _ Eb3) as (c3 & Ec3 & Pc3 & Yc3 & Cc3 & Fc3).
  cbn [page scrollY classList effects enter set_event w0] in *.
  exists c3. split_and!.
  - unfold dispatchEvent. erewrite bind_run by reflexivity.
    erewrite bind_run by (unfold gets; cbn [listeners set_event]; rewrite Hls; reflexivity).
    erewrite bind_run.
    2:{ unfold forEach, scrollListenersOf. cbn [forEach_from].
        erewrite bind_run by exact Ec1. erewrite bind_run by exact Ec2.
        erewrite bind_run by exact Ec3. reflexivity. }
    assert (Hev : canceled (event c3) = false).
    { destruct (invoke_passive (mkListener Window Scroll (NavbarlinksActive navbarlinks) true)
                  w0 eq_refl) as (? & E1' & H1).
      rewrite Ec1 in E1'. injection E1' as <-.
      destruct (invoke_passive (mkListener Window Scroll HeaderScrolled true)
                  c1 eq_refl) as (? & E2' & H2).
      rewrite Ec2 in E2'. injection E2' as <-.
      destruct (invoke_passive (mkListener Window Scroll ToggleBacktotop true)
                  c2 eq_refl) as (? & E3' & H3).
      rewrite Ec3 in E3'. injection E3' as <-. by rewrite H3, H2, H1. }
    unfold gets. by rewrite Hev.
  - by rewrite Pc3, Pb3, Pc2, Pb2, Pc1, Pb1.
  - rewrite Fc3, (toggleBacktotop_effects _ _ _ Eb3). cbn [effects enter set_event reported].
    rewrite Fc2, (headerScrolled_effects _ _ _ Eb2). cbn [effects enter set_event reported].
    rewrite Fc1, (navbarlinksActive_effects _ _ _ _ Eb1). cbn [effects enter set_event w0].
    by rewrite !app_nil_r.
  - intros n c. rewrite Cc3, Cb3, Pc2, Pb2, Pc1, Pb1, Yc2, Yb2, Yc1, Yb1.
    case_decide; [done|].
    rewrite Cc2, Cb2, Pc1, Pb1, Yc1, Yb1. case_decide; [done|].
    by rewrite Cc1, Cb1.
Qed.

(** The script's top level puts [onLoad] on the window, and a load event
    then runs it, once. *)
Lemma load_event_runs_onLoad w :
  List.filter (listens Load Window) (listeners w) = [] ->
  exists w1 w2,
    main w = (w1, Ok tt) /\
    dispatchEvent Load Window w1 = (w2, Ok true) /\
    exists w0 w3 r,
      page w0 = page w /\ entered w0 = entered w /\
      onLoad w0 = (w3, r) /\ entered w2 = entered w3.
Proof.
  intros Hls. eexists. 
  set (l := mkListener Window Load OnLoad true).
  assert (Hls1 : List.filter (listens Load Window) (listeners w ++ [l]) = [l]).
  { by rewrite List.filter_app, Hls. }
  set (w1 := set_listeners (listeners w ++ [l]) w).
  set (w0 := set_event (mkEvent false true false)
               (set_event (mkEvent (is_cancelable Load) false false) w1)).
  destruct (onLoad w0) as [w3 r] eqn:E.
  destruct (invoke_passive l (set_event (mkEvent (is_cancelable Load) false false) w1) eq_refl)
    as (w2 & E2 & Hc).
  exists w2. split; [reflexivity|]. split.
  - unfold dispatchEvent. erewrite bind_run by reflexivity.
    erewrite bind_run by (unfold gets; cbn [listeners set_event set_listeners]; fold l;
                          rewrite Hls1; reflexivity).
    unfold forEach. cbn [forEach_from].
    erewrite bind_run by (erewrite bind_run by exact E2; reflexivity).
    unfold gets. by rewrite Hc.
  - exists w0, w3, r. split_and!; try done.
    unfold invoke in E2. erewrite bind_run in E2 by reflexivity.
    cbn [l l_handler l_target l_passive runHandler set_passive modify fst] in E2.
    change (onLoad _) with (onLoad w0) in E2. rewrite E in E2.
    destruct r as [[]|e]; injection E2 as <-; [done|].
    unfold entered. cbn. rewrite List.filter_app. cbn. by rewrite app_nil_r.
Qed.

(** C2. A scroll event at offset [y] runs the scroll listeners; after
    it the header carries [header-scrolled], the topbar
    [topbar-scrolled] and the back-to-top element [active] exactly when
    [y > 100].  An absent element makes its toggle a no-op.  The
    dispatch itself throws nothing; the one thing it can report is the
    exception of the round over the navigation links. *)
Theorem scroll_threshold_markers (w : World) (navbarlinks : list Node) :
  List.filter (listens Scroll Window) (listeners w) = scrollListenersOf navbarlinks ->
  exists w', dispatchEvent Scroll Window w = (w', Ok true) /\
    effects w' = effects w ++ reported (round_result (page w) navbarlinks) /\
    (forall h, querySelector (page w) "#header" = Some h ->
       "header-scrolled" ∈ classList w' h <-> scrollY w > 100) /\
    (forall t, querySelector (page w) "#topbar" = Some t ->
       "topbar-scrolled" ∈ classList w' t <-> scrollY w > 100) /\
    (forall b, querySelector (page w) ".back-to-top" = Some b ->
       "active" ∈ classList w' b <-> scrollY w > 100) /\
    (querySelector (page w) "#header" = None ->
       forall n, "header-scrolled" ∈ classList w' n <-> "header-scrolled" ∈ classList w n) /\
    (querySelector (page w) "#topbar" = None ->
       forall n, "topbar-scrolled" ∈ classList w' n <-> "topbar-scrolled" ∈ classList w n) /\
    (querySelector (page w) ".back-to-top" = None ->
       forall w0, page w0 = page w -> toggleBacktotop w0 = (w0, Ok tt)).
Proof.
  intros Hls.
  destruct (dispatchEvent_scroll w navbarlinks Hls) as (w' & E & _ & Heff & C).
  exists w'. split; [exact E|]. split; [exact Heff|].
  assert (Hlinks : forall n c, c <> "active" ->
    c ∈ (if decide (n ∈ reached (page w) navbarlinks)
         then marked (page w) (scrollY w + 200) n (classList w n)
         else classList w n) <-> c ∈ classList w n).
  { intros n c Hc. case_decide; [|done].
    rewrite elem_of_marked. destruct (target_section _ _); [|done].
    by rewrite decide_False. }
  unfold decided_by_toggleBacktotop, decided_by_headerScrolled in C.
  split_and!.
  - intros h Hh. rewrite C, decide_False by (intros [_ ?]; done).
    by rewrite decide_True by (left; done).
  - intros t Ht. rewrite C, decide_False by (intros [_ ?]; done).
    by rewrite decide_True by (right; done).
  - intros b Hb. by rewrite C, decide_True by done.
  - intros Hh n. rewrite C, decide_False by (intros [_ ?]; done).
    rewrite decide_False by (intros [[? _]|[_ ?]]; congruence).
    by rewrite Hlinks.
  - intros Ht n. rewrite C, decide_False by (intros [_ ?]; done).
    rewrite decide_False by (intros [[_ ?]|[? _]]; congruence).
    by rewrite Hlinks.
  - intros Hb w0 Hp. apply toggleBacktotop_absent. by rewrite Hp.
Qed.

(** ** The properties on the sample page *)

Lemma scrollTo_destination_witness :
  scrollTo "#about" demoWorld =
  (set_effects [EnterScrollTo "#about"; WindowScrollTo (400 - 70) "smooth"] demoWorld,
   Ok tt).
Proof.
  apply (scrollTo_destination demoWorld "#about" 1%nat 6%nat); reflexivity.
Defined.

Lemma mobileNavToggle_click_twice_witness :
  exists w1 w2,
    mobileNavToggle_click 3%nat demoWorld = (w1, Ok tt) /\
    mobileNavToggle_click 3%nat w1 = (w2, Ok tt) /\
    ("navbar-mobile" ∈ classList w1 2%nat <-> "navbar-mobile" ∉ classList demoWorld 2%nat) /\
    classList w2 2%nat = classList demoWorld 2%nat /\
    classList w2 3%nat = classList demoWorld 3%nat.
Proof.
  destruct (mobileNavToggle_click_twice demoWorld 2%nat 3%nat)
    as (w1 & w2 & E1 & E2 & Hn & _ & _ & _ & Hr1 & Hr2).
  - reflexivity.
  - apply (bool_decide_unpack _). vm_compute. exact I.
  - exists w1, w2. split_and!; assumption.
Defined.

Lemma scroll_threshold_markers_witness :
  exists w', dispatchEvent Scroll Window (fst (initScrollFunctions demoWorld)) = (w', Ok true) /\
    ("header-scrolled" ∈ classList w' 1%nat <-> 250 > 100) /\
    ("active" ∈ classList w' 13%nat <-> 250 > 100) /\
    (forall n, "topbar-scrolled" ∈ classList w' n <-> "topbar-scrolled" ∈ classList demoWorld n).
Proof.
  destruct (scroll_threshold_markers (fst (initScrollFunctions demoWorld)) [4%nat; 5%nat])
    as (w' & E & _ & Hh & _ & Hb & _ & Ht & _).
  - reflexivity.
  - exists w'. split_and!.
    + exact E.
    + apply (Hh 1%nat). reflexivity.
    + apply (Hb 13%nat). reflexivity.
    + apply Ht. reflexivity.
Defined.

Lemma menuFilter_click_selects_witness :
  exists w' r, menuFilter_click [15%nat; 16%nat] 16%nat demoWorld = (w', r) /\
    ("filter-active" ∈ classList w' 16%nat <-> 16%nat = 16%nat) /\
    ("filter-active" ∈ classList w' 15%nat <-> 15%nat = 16%nat) /\
    effects w' = [IsotopeArrange (Some ".filter-starters")].
Proof.
  destruct (menuFilter_click_selects demoWorld [15%nat; 16%nat] 16%nat)
    as (w' & r & E & Hsel & _ & He).
  exists w', r. split_and!.
  - exact E.
  - apply Hsel. right. reflexivity.
  - apply Hsel. left. apply list_elem_of_here.
  - exact He.
Defined.

(** * Further properties of the script *)

(** ** Registering listeners *)

Lemma same_but_listeners_refl w : same_but_listeners w w.
Proof. by repeat split. Qed.

Lemma fold_addEventListener type listener es w :
  let w' := fold_left (fun w e =>
      set_listeners (listeners w ++ [registered type listener e]) w) es w in
  same_but_listeners w w' /\
  listeners w' = listeners w ++ map (registered type listener) es.
Proof.
  revert w. induction es as [|e es IH]; intros w; cbn [fold_left map].
  - split; [apply same_but_listeners_refl|by rewrite app_nil_r].
  - destruct (IH (set_listeners (listeners w ++ [registered type listener e]) w))
      as [(? & ? & ? & ? & ? & ?) Hl].
    split; [by repeat split|]. rewrite Hl. cbn. by rewrite <- app_assoc.
Qed.

Lemma on_run type el listener all w :
  valid_selector (page w) (trim el) = true ->
  exists w', on type el listener all w = (w', Ok tt) /\
    same_but_listeners w w' /\
    listeners w' = listeners w ++ map (registered type listener) (on_targets (page w) el all).
Proof.
  intros Hv. unfold on, on_targets. destruct all.
  - erewrite bind_run by (by apply select_all_run).
    erewrite forEach_fold by (intros; reflexivity).
    eexists. split; [reflexivity|]. apply fold_addEventListener.
  - erewrite bind_run by (by apply select_run).
    destruct (querySelector (page w) (trim el)) as [e|]; eexists;
      (split; [reflexivity|]); (split; [by repeat split|]); cbn;
      by rewrite ?app_nil_r.
Qed.

Lemma on_throw type el listener all w :
  valid_selector (page w) (trim el) = false ->
  on type el listener all w = (w, Throw (SyntaxError (trim el))).
Proof.
  intros Hv. unfold on. destruct all.
  - by erewrite bind_throw by (by apply select_all_throw).
  - by erewrite bind_throw by (by apply select_throw).
Qed.

(** X1. [on] changes nothing but the listeners.  Given a selector, and
    every selector the script hands to it is one, it does not throw: it
    adds one passive listener per element it attaches to, in document
    order (every match with [all], else the first match only), and none
    when the selector matches nothing.  Given a string that is no
    selector, it throws the [SyntaxError] of the query and registers
    nothing. *)
Theorem on_registers (type : EventType) (el : string) (listener : Handler)
    (all : bool) (w : World) :
  (valid_selector (page w) (trim el) = true ->
   exists w' added,
     on type el listener all w = (w', Ok tt) /\
     same_but_listeners w w' /\
     listeners w' = listeners w ++ added /\
     length added = length (on_targets (page w) el all) /\
     (querySelectorAll (page w) (trim el) = [] -> added = []) /\
     (all = false -> (length added <= 1)%nat) /\
     Forall (fun l => l_passive l = true /\ l_type l = type /\ l_handler l = listener) added /\
     map l_target added = map Elem (on_targets (page w) el all)) /\
  (valid_selector (page w) (trim el) = false ->
   on type el listener all w = (w, Throw (SyntaxError (trim el)))) /\
  (el ∈ on_selectors -> valid_selector (page w) (trim el) = true).
Proof.
  split_and!.
  - intros Hv.
    destruct (on_run type el listener all w Hv) as (w' & E & Hsame & Hl).
    exists w', (map (registered type listener) (on_targets (page w) el all)).
    split_and!; try done.
    + by rewrite length_map.
    + intros Hnone. unfold on_targets, querySelector. rewrite Hnone, Hv. by destruct all.
    + intros ->. rewrite length_map. unfold on_targets.
      destruct (querySelector _ _); cbn; lia.
    + apply Forall_fmap, Forall_true. done.
    + rewrite <- list_fmap_compose. done.
  - apply on_throw.
  - unfold on_selectors. rewrite !elem_of_cons, elem_of_nil.
    intros [->|[->|[->|[->|[]]]]]; by apply simple_selector_valid.
Qed.

Lemma on_registers_witness :
  (exists w' added,
     on Click ".scrollto" ScrolltoClick true demoWorld = (w', Ok tt) /\
     listeners w' = added /\ length added = 2%nat) /\
  on Click "#/about" ScrolltoClick true demoWorld
    = (demoWorld, Throw (SyntaxError "#/about")).
Proof.
  split.
  - destruct (proj1 (on_registers Click ".scrollto" ScrolltoClick true demoWorld) eq_refl)
      as (w' & added & E & _ & Hl & Hlen & _).
    exists w', added. split; [exact E|]. split; [exact Hl|exact Hlen].
  - apply (proj1 (proj2 (on_registers Click "#/about" ScrolltoClick true demoWorld))).
    reflexivity.
Defined.

(** ** The smooth-scroll helper, failing *)

Lemma scrollTo_missing w el :
  querySelector (page w) "#header" = None \/ querySelector (page w) (trim el) = None ->
  exists w' e,
    scrollTo el w = (w', Throw e) /\
    w' = set_effects (effects w ++ [EnterScrollTo el]) w /\
    e = match querySelector (page w) "#header" with
        | None => TypeError "header.offsetHeight"
        | Some _ =>
            if valid_selector (page w) (trim el)
            then TypeError "select(el).offsetTop"
            else SyntaxError (trim el)
        end.
Proof.
  intros Hmiss. unfold scrollTo.
  erewrite bind_run by reflexivity.
  destruct (querySelector (page w) "#header") as [header|] eqn:Hh.
  - destruct Hmiss as [?|Ht]; [done|].
    erewrite bind_run by (apply select_some; exact Hh). cbv beta iota.
    erewrite bind_run by reflexivity.
    destruct (valid_selector (page w) (trim el)) eqn:Hv.
    + erewrite bind_run by (apply select_none; [exact Hv|exact Ht]).
      by do 2 eexists.
    + erewrite bind_throw by (apply select_throw; exact Hv).
      by do 2 eexists.
  - erewrite bind_run by (apply select_none; [reflexivity|exact Hh]).
    by do 2 eexists.
Qed.

(** X2. Without the header, or without the target, the helper throws
    and never asks the window to scroll: its only trace is its own
    entry.  The exception is the [TypeError] of reading a property of
    [null], unless the header is there and the target string is no
    selector: then it is the [SyntaxError] of the query. *)
Theorem scrollTo_missing_element (w : World) (el : string) :
  querySelector (page w) "#header" = None \/ querySelector (page w) (trim el) = None ->
  exists w' e,
    scrollTo el w = (w', Throw e) /\
    effects w' = effects w ++ [EnterScrollTo el] /\
    classList w' = classList w /\
    (querySelector (page w) "#header" = None \/ valid_selector (page w) (trim el) = true ->
     exists msg, e = TypeError msg) /\
    (querySelector (page w) "#header" <> None ->
     valid_selector (page w) (trim el) = false -> e = SyntaxError (trim el)).
Proof.
  intros Hmiss.
  destruct (scrollTo_missing w el Hmiss) as (w' & e & E & -> & ->).
  do 2 eexists. split; [exact E|]. split_and!; try done.
  - intros [->|Hv]; [by eexists|].
    destruct (querySelector (page w) "#header"); [|by eexists].
    rewrite Hv. by eexists.
  - intros Hh Hv. destruct (querySelector (page w) "#header"); [|done].
    by rewrite Hv.
Qed.

Lemma scrollTo_missing_element_witness :
  exists w' msg,
    scrollTo "#contact" demoWorld = (w', Throw (TypeError msg)) /\
    effects w' = [EnterScrollTo "#contact"].
Proof.
  destruct (scrollTo_missing_element demoWorld "#contact")
    as (w' & e & E & He & _ & Ht & _).
  - right. reflexivity.
  - destruct Ht as [msg ->]; [right; reflexivity|].
    exists w', msg. split; [exact E|exact He].
Defined.

(** ** Clicks on scroll-to links *)

Lemma scrollTo_run w el header target :
  querySelector (page w) "#header" = Some header ->
  querySelector (page w) (trim el) = Some target ->
  scrollTo el w =
  (set_effects
     (effects w ++
      [EnterScrollTo el;
       WindowScrollTo (offsetTop (page w) target - offsetHeight (page w) header) "smooth"])
     w,
   Ok tt).
Proof.
  intros Hh Ht. unfold scrollTo.
  erewrite bind_run by reflexivity.
  erewrite bind_run by (apply select_some; exact Hh). cbv beta iota.
  erewrite bind_run by reflexivity.
  erewrite bind_run by (apply select_some; exact Ht). cbv beta iota.
  js_run. by rewrite <- app_assoc.
Qed.

(** X3. A click on a scroll-to link hands the link's hash to a query.
    When the hash is not a selector, as is the empty hash of a link to
    [#] and a hash like [#2024] or [#/about], the click throws the
    [SyntaxError] of the query and changes nothing.  When it is a selector that selects no element, the click
    does nothing at all.  When it selects an element and the header is
    there, the click asks the window, once, to scroll smoothly to the
    target's offset less the header's height, and touches no class
    list. *)
Theorem scrollto_click_scrolls (w : World) (this : Node) (h : string) :
  hash (page w) this = Some h ->
  (valid_selector (page w) (trim h) = false ->
   scrollto_click this w = (w, Throw (SyntaxError (trim h)))) /\
  (h = EmptyString \/ not_a_selector (trim h) = true ->
   valid_selector (page w) (trim h) = false) /\
  (valid_selector (page w) (trim h) = true ->
   querySelector (page w) (trim h) = None -> scrollto_click this w = (w, Ok tt)) /\
  (forall target header,
     querySelector (page w) (trim h) = Some target ->
     querySelector (page w) "#header" = Some header ->
     exists w', scrollto_click this w = (w', Ok tt) /\
       effects w' = effects w ++
         [EnterScrollTo h;
          WindowScrollTo (offsetTop (page w) target - offsetHeight (page w) header) "smooth"] /\
       classList w' = classList w).
Proof.
  intros Hhash. unfold scrollto_click. erewrite bind_run by reflexivity.
  rewrite Hhash. cbv beta iota. split_and!.
  - intros Hv. by erewrite bind_throw by (by apply select_throw).
  - intros [->|Hno]; [done|]. unfold valid_selector. by rewrite Hno.
  - intros Hv Hnone. by erewrite bind_run by (by apply select_none).
  - intros target header Ht Hh.
    erewrite bind_run by (apply select_some; exact Ht). cbv beta iota.
    destruct (preventDefault_run w) as (w0 & E0 & P0 & C0 & F0 & _).
    erewrite bind_run by exact E0.
    rewrite (scrollTo_run w0 h header target) by (by rewrite P0).
    eexists. split; [reflexivity|]. by rewrite P0, F0.
Qed.

Lemma scrollto_click_scrolls_witness :
  (exists w', scrollto_click 4%nat demoWorld = (w', Ok tt) /\
     effects w' = [EnterScrollTo "#about"; WindowScrollTo (400 - 70) "smooth"]) /\
  scrollto_click 5%nat demoWorld = (demoWorld, Throw (SyntaxError EmptyString)).
Proof.
  split.
  - destruct (proj2 (proj2 (proj2 (scrollto_click_scrolls demoWorld 4%nat "#about" eq_refl)))
                6%nat 1%nat eq_refl eq_refl) as (w' & E & He & _).
    exists w'. split; [exact E|exact He].
  - apply (proj1 (scrollto_click_scrolls demoWorld 5%nat EmptyString eq_refl)).
    reflexivity.
Defined.

(** ** Listeners on a page without navbar *)

(** X4. Without the navbar, a click on the mobile toggle or on a
    dropdown link throws a [TypeError] before anything is toggled: the
    page is left exactly as it was. *)
Theorem navbar_missing_clicks_throw (w : World) (this : Node) :
  querySelector (page w) "#navbar" = None ->
  (exists msg, mobileNavToggle_click this w = (w, Throw (TypeError msg))) /\
  (exists msg, dropdown_click this w = (w, Throw (TypeError msg))).
Proof.
  intros Hnav. split.
  - unfold mobileNavToggle_click.
    erewrite bind_run by (apply select_none; [reflexivity|exact Hnav]). by eexists.
  - unfold dropdown_click.
    erewrite bind_run by (apply select_none; [reflexivity|exact Hnav]). by eexists.
Qed.

Lemma navbar_missing_clicks_throw_witness :
  exists msg, mobileNavToggle_click 3%nat bareWorld = (bareWorld, Throw (TypeError msg)).
Proof.
  destruct (navbar_missing_clicks_throw bareWorld 3%nat eq_refl) as [H _]. exact H.
Defined.

(** ** Invariants of whole runs *)

Section Preserves.
Context (R : World -> World -> Prop) `{!PreOrder R}.

Lemma preserves_ret {A} (a : A) : preserves R (ret a).
Proof. by intros w w' r [= <- _]. Qed.

Lemma preserves_throw {A} e : preserves R (throw (A := A) e).
Proof. by intros w w' r [= <- _]. Qed.

Lemma preserves_gets {A} (f : World -> A) : preserves R (gets f).
Proof. by intros w w' r [= <- _]. Qed.

Lemma preserves_select el : preserves R (select el).
Proof. by intros w w' r ->%select_world. Qed.

Lemma preserves_select_all el : preserves R (select_all el).
Proof. by intros w w' r ->%select_all_world. Qed.

Ltac preserves_read :=
  first [apply preserves_gets | apply preserves_select | apply preserves_select_all].

Lemma preserves_modify (f : World -> World) :
  (forall w, R w (f w)) -> preserves R (modify f).
Proof. intros Hf w w' r [= <- _]. apply Hf. Qed.

Lemma preserves_bind {A B} (m : M A) (f : A -> M B) :
  preserves R m -> (forall a, preserves R (f a)) -> preserves R (bind m f).
Proof.
  intros Hm Hf w w' r. unfold bind. destruct (m w) as [w1 [a|e]] eqn:E.
  - intros H. etrans; [by eapply Hm|by eapply Hf].
  - intros [= <- _]. by eapply Hm.
Qed.

Lemma preserves_forEach {A} (xs : list A) (f : A -> nat -> M unit) :
  (forall x i, preserves R (f x i)) -> preserves R (forEach xs f).
Proof.
  intros Hf. unfold forEach. generalize 0%nat as index.
  induction xs as [|x xs IH]; intros index; cbn [forEach_from].
  - apply preserves_ret.
  - apply preserves_bind; [apply Hf|]. intros _. apply IH.
Qed.

(** What the steps of the script do to the world, one by one. *)
Hypothesis R_effects : forall es w, R w (set_effects es w).
Hypothesis R_listener : forall t ty h w,
  R w (set_listeners (listeners w ++ [mkListener t ty h true]) w).
Hypothesis R_innerHTML : forall f w, R w (set_innerHTML f w).

Lemma preserves_emit e : preserves R (emit e).
Proof. apply preserves_modify. intros w. apply R_effects. Qed.

Lemma preserves_widget call : preserves R (widget call).
Proof.
  unfold widget. apply preserves_bind; [apply preserves_emit|intros _].
  apply preserves_bind; [preserves_read|intros [e|]];
    [apply preserves_throw|apply preserves_ret].
Qed.

Lemma preserves_on ty el h all : preserves R (on ty el h all).
Proof.
  unfold on. destruct all.
  - apply preserves_bind; [preserves_read|intros es].
    apply preserves_forEach. intros e _. apply preserves_modify. intros w.
    apply R_listener.
  - apply preserves_bind; [preserves_read|intros [e|]]; [|apply preserves_ret].
    apply preserves_modify. intros w. apply R_listener.
Qed.

Lemma preserves_scrollTo el : preserves R (scrollTo el).
Proof.
  unfold scrollTo. apply preserves_bind; [apply preserves_emit|intros _].
  apply preserves_bind; [preserves_read|intros [header|]];
    [|apply preserves_throw].
  apply preserves_bind; [preserves_read|intros offset].
  apply preserves_bind; [preserves_read|intros [target|]];
    [|apply preserves_throw].
  apply preserves_bind; [preserves_read|intros pos]. apply preserves_emit.
Qed.

Lemma preserves_onLoad : preserves R onLoad.
Proof.
  unfold onLoad.
  apply preserves_bind; [|intros _].
  { unfold initNavbar. apply preserves_bind; [apply preserves_emit|intros _].
    apply preserves_bind; [apply preserves_on|intros _].
    apply preserves_bind; [apply preserves_on|intros _]. apply preserves_on. }
  apply preserves_bind; [|intros _].
  { unfold initScrollFunctions. apply preserves_bind; [apply preserves_emit|intros _].
    apply preserves_bind; [preserves_read|intros links].
    apply preserves_bind; [|intros _];
      [apply preserves_modify; intros w; apply R_listener|].
    apply preserves_bind; [|intros _];
      apply preserves_modify; intros w; apply R_listener. }
  apply preserves_bind; [|intros _].
  { unfold initCarouselIndicators. apply preserves_bind; [apply preserves_emit|intros _].
    apply preserves_bind; [preserves_read|intros host].
    apply preserves_bind; [preserves_read|intros items].
    apply preserves_forEach. intros item index. cbv zeta.
    destruct host; [|apply preserves_throw].
    apply preserves_modify. intros w. apply R_innerHTML. }
  apply preserves_bind; [|intros _].
  { unfold initMenuIsotope. apply preserves_bind; [apply preserves_emit|intros _].
    apply preserves_bind; [preserves_read|intros [c|]]; [|apply preserves_ret].
    apply preserves_bind; [apply preserves_widget|intros _].
    apply preserves_bind; [preserves_read|intros fs]. apply preserves_on. }
  apply preserves_bind; [|intros _].
  { unfold initSwipers. apply preserves_bind; [apply preserves_emit|intros _].
    apply preserves_bind; [apply preserves_widget|intros _]. apply preserves_widget. }
  apply preserves_bind; [|intros _].
  { unfold initGLightbox. apply preserves_bind; [apply preserves_emit|intros _].
    apply preserves_widget. }
  unfold handleHashOnLoad. apply preserves_bind; [preserves_read|intros h].
  destruct h; [apply preserves_ret|].
  apply preserves_bind; [preserves_read|intros [target|]];
    [apply preserves_scrollTo|apply preserves_ret].
Qed.

(** The listeners also write class lists and the event. *)
Hypothesis R_classList : forall f w, R w (set_classList f w).
Hypothesis R_event : forall e w, R w (set_event e w).

Lemma preserves_classList_add n c : preserves R (classList_add n c).
Proof. apply preserves_modify. intros w. apply R_classList. Qed.

Lemma preserves_classList_remove n c : preserves R (classList_remove n c).
Proof. apply preserves_modify. intros w. apply R_classList. Qed.

Lemma preserves_classList_toggle n c : preserves R (classList_toggle n c).
Proof.
  unfold classList_toggle. apply preserves_bind; [preserves_read|intros []];
    [apply preserves_classList_remove|apply preserves_classList_add].
Qed.

Lemma preserves_preventDefault : preserves R preventDefault.
Proof.
  apply preserves_modify. intros w. cbv zeta.
  destruct (cancelable _ && _); [apply R_event|reflexivity].
Qed.

Lemma preserves_runHandler h this : preserves R (runHandler h this).
Proof.
  destruct h, this as [|this]; cbn [runHandler];
    try apply preserves_throw; try apply preserves_onLoad.
  - (* the mobile toggle *)
    unfold mobileNavToggle_click.
    apply preserves_bind; [preserves_read|intros [navbar|]];
      [|apply preserves_throw].
    apply preserves_bind; [apply preserves_classList_toggle|intros _].
    apply preserves_bind; [apply preserves_classList_toggle|intros _].
    apply preserves_classList_toggle.
  - (* a dropdown link *)
    unfold dropdown_click.
    apply preserves_bind; [preserves_read|intros [navbar|]];
      [|apply preserves_throw].
    apply preserves_bind; [preserves_read|intros []]; [|apply preserves_ret].
    apply preserves_bind; [apply preserves_preventDefault|intros _].
    apply preserves_bind; [preserves_read|intros [sibling|]];
      [apply preserves_classList_toggle|apply preserves_throw].
  - (* a scroll-to link *)
    unfold scrollto_click.
    apply preserves_bind; [preserves_read|intros [h|]]; [|apply preserves_throw].
    apply preserves_bind; [preserves_read|intros [target|]];
      [|apply preserves_ret].
    apply preserves_bind; [apply preserves_preventDefault|intros _].
    apply preserves_scrollTo.
  - (* the three scroll listeners *)
    unfold navbarlinksActive.
    apply preserves_bind; [preserves_read|intros y].
    apply preserves_forEach. intros link _.
    apply preserves_bind; [preserves_read|intros [[|c h]|]];
      try apply preserves_ret.
    apply preserves_bind; [preserves_read|intros [section|]];
      [|apply preserves_ret].
    apply preserves_bind; [preserves_read|intros top].
    apply preserves_bind; [preserves_read|intros height].
    destruct (_ && _); [apply preserves_classList_add|apply preserves_classList_remove].
  - unfold navbarlinksActive.
    apply preserves_bind; [preserves_read|intros y].
    apply preserves_forEach. intros link _.
    apply preserves_bind; [preserves_read|intros [[|c h]|]];
      try apply preserves_ret.
    apply preserves_bind; [preserves_read|intros [section|]];
      [|apply preserves_ret].
    apply preserves_bind; [preserves_read|intros top].
    apply preserves_bind; [preserves_read|intros height].
    destruct (_ && _); [apply preserves_classList_add|apply preserves_classList_remove].
  - unfold headerScrolled.
    apply preserves_bind; [preserves_read|intros [header|]];
      (apply preserves_bind; [preserves_read|intros [topbar|]]);
      (apply preserves_bind; [preserves_read|intros y]);
      destruct (y >? 100); (apply preserves_bind; [|intros _]);
      first [apply preserves_classList_add|apply preserves_classList_remove
            |apply preserves_ret].
  - unfold headerScrolled.
    apply preserves_bind; [preserves_read|intros [header|]];
      (apply preserves_bind; [preserves_read|intros [topbar|]]);
      (apply preserves_bind; [preserves_read|intros y]);
      destruct (y >? 100); (apply preserves_bind; [|intros _]);
      first [apply preserves_classList_add|apply preserves_classList_remove
            |apply preserves_ret].
  - unfold toggleBacktotop.
    apply preserves_bind; [preserves_read|intros [b|]]; [|apply preserves_ret].
    apply preserves_bind; [preserves_read|intros y].
    destruct (y >? 100); [apply preserves_classList_add|apply preserves_classList_remove].
  - unfold toggleBacktotop.
    apply preserves_bind; [preserves_read|intros [b|]]; [|apply preserves_ret].
    apply preserves_bind; [preserves_read|intros y].
    destruct (y >? 100); [apply preserves_classList_add|apply preserves_classList_remove].
  - (* a menu filter *)
    unfold menuFilter_click.
    apply preserves_bind; [apply preserves_preventDefault|intros _].
    apply preserves_bind; [|intros _].
    { apply preserves_forEach. intros el _. apply preserves_classList_remove. }
    apply preserves_bind; [apply preserves_classList_add|intros _].
    apply preserves_bind; [preserves_read|intros filter]. apply preserves_widget.
Qed.

Lemma preserves_invoke l : preserves R (invoke l).
Proof.
  intros w w' r. unfold invoke.
  destruct ((set_passive (l_passive l) ;; runHandler (l_handler l) (l_target l)) w)
    as [w1 [[]|e]] eqn:E.
  - intros [= <- _]. etrans; [|apply R_event].
    revert E. apply preserves_bind; [|intros _; apply preserves_runHandler].
    apply preserves_modify. intros w0. apply R_event.
  - intros [= <- _]. etrans; [|apply R_effects]. etrans; [|apply R_event].
    revert E. apply preserves_bind; [|intros _; apply preserves_runHandler].
    apply preserves_modify. intros w0. apply R_event.
Qed.

Lemma preserves_dispatchEvent ty t : preserves R (dispatchEvent ty t).
Proof.
  unfold dispatchEvent.
  apply preserves_bind; [|intros _].
  { apply preserves_modify. intros w. apply R_event. }
  apply preserves_bind; [preserves_read|intros ls].
  apply preserves_bind; [|intros _; apply preserves_gets].
  apply preserves_forEach. intros l _. apply preserves_invoke.
Qed.
End Preserves.

#[local] Instance keeps_passive_preorder : PreOrder keeps_passive.
Proof.
  split; [intros w Hw; exact Hw|]. intros a b c Hab Hbc Ha. apply Hbc, Hab, Ha.
Qed.

#[local] Instance keeps_classes_preorder : PreOrder keeps_classes.
Proof.
  split; [intros w; reflexivity|]. unfold keeps_classes. intros a b c Hab Hbc.
  congruence.
Qed.

Lemma main_keeps_passive : preserves keeps_passive main.
Proof.
  apply preserves_modify. intros w Hw. unfold all_passive. cbn.
  apply Forall_app. split; [done|]. by repeat constructor.
Qed.

Lemma dispatchEvent_keeps_passive ty t : preserves keeps_passive (dispatchEvent ty t).
Proof.
  apply preserves_dispatchEvent.
  - apply _.
  - intros es w Hw. exact Hw.
  - intros t' ty' h w Hw. unfold all_passive. cbn.
    apply Forall_app. split; [done|]. by repeat constructor.
  - intros f w Hw. exact Hw.
  - intros f w Hw. exact Hw.
  - intros e w Hw. exact Hw.
Qed.

Lemma dispatch_all_passive events w :
  all_passive w ->
  exists w' bs, dispatch_all events w = (w', Ok bs) /\
    Forall (fun b => b = true) bs /\ length bs = length events /\ all_passive w'.
Proof.
  revert w. induction events as [|[ty t] events IH]; intros w Hw; cbn [dispatch_all].
  - exists w, []. by repeat split.
  - destruct (dispatchEvent_passive ty t w Hw) as (w1 & E1).
    pose proof (dispatchEvent_keeps_passive ty t _ _ _ E1 Hw) as Hw1.
    destruct (IH w1 Hw1) as (w2 & bs & E2 & Hbs & Hlen & Hw2).
    exists w2, (true :: bs). split.
    + erewrite bind_run by exact E1. by erewrite bind_run by exact E2.
    + split; [by constructor|]. split; [by cbn; rewrite Hlen|done].
Qed.

(** X5. The script never prevents a default action.  Started on a page
    whose listeners, if any, are passive, the script's top level and any
    run of events after it (the load event, clicks, scrolls) leave only
    passive listeners behind, and every dispatch reports that the
    default action was not prevented. *)
Theorem script_never_prevents_default (w : World) (events : list (EventType * Target)) :
  all_passive w ->
  exists w' results,
    (main ;; dispatch_all events) w = (w', Ok results) /\
    results = replicate (length events) true /\
    all_passive w'.
Proof.
  intros Hw.
  destruct (main w) as [w0 r0] eqn:E0.
  pose proof (main_keeps_passive _ _ _ E0 Hw) as Hw0.
  assert (r0 = Ok tt) as -> by (by injection E0 as _ <-).
  destruct (dispatch_all_passive events w0 Hw0) as (w' & bs & E & Hbs & Hlen & Hw').
  exists w', bs. split; [by erewrite bind_run by exact E0|]. split; [|done].
  rewrite <- Hlen. clear -Hbs. induction Hbs as [|b bs -> _ IH]; cbn; [done|by f_equal].
Qed.

Lemma script_never_prevents_default_witness :
  exists w' results,
    (main ;; dispatch_all [(Load, Window); (Click, Elem 7%nat); (Scroll, Window)]) demoWorld
      = (w', Ok results) /\
    results = [true; true; true].
Proof.
  destruct (script_never_prevents_default demoWorld
              [(Load, Window); (Click, Elem 7%nat); (Scroll, Window)])
    as (w' & results & E & Hr & _).
  - apply Forall_nil_2.
  - exists w', results. split; [exact E|exact Hr].
Defined.

(** X6. The load listener, whether it returns or throws, leaves every
    class list as it was: initialization only registers listeners,
    builds markup and calls the widgets. *)
Theorem onLoad_keeps_classes (w : World) :
  classList (fst (onLoad w)) = classList w.
Proof.
  destruct (onLoad w) as [w' r] eqn:E. cbn [fst]. revert E.
  apply (preserves_onLoad keeps_classes
           (fun _ _ => eq_refl) (fun _ _ _ _ => eq_refl) (fun _ _ => eq_refl)).
Qed.

(** ** What the initializers register *)

(** X7. [initNavbar] never throws and touches no class list.  It puts
    the toggle listener on the first [.mobile-nav-toggle] only, then a
    dropdown listener on every [.navbar .dropdown > a], then a scroll-to
    listener on every [.scrollto], in document order; what the page
    lacks gets no listener. *)
Theorem initNavbar_listeners (w : World) :
  exists w', initNavbar w = (w', Ok tt) /\
    effects w' = effects w ++ [Enter InitNavbar] /\
    classList w' = classList w /\ innerHTML w' = innerHTML w /\
    listeners w' = listeners w
      ++ map (registered Click MobileNavToggleClick)
           (option_list (querySelector (page w) ".mobile-nav-toggle"))
      ++ map (registered Click DropdownClick)
           (querySelectorAll (page w) ".navbar .dropdown > a")
      ++ map (registered Click ScrolltoClick) (querySelectorAll (page w) ".scrollto").
Proof.
  unfold initNavbar. erewrite bind_run by reflexivity.
  set (w0 := set_effects (effects w ++ [Enter InitNavbar]) w).
  destruct (on_run Click ".mobile-nav-toggle" MobileNavToggleClick false w0 eq_refl)
    as (w1 & E1 & (P1 & _ & C1 & I1 & _ & F1) & L1).
  destruct (on_run Click ".navbar .dropdown > a" DropdownClick true w1 eq_refl)
    as (w2 & E2 & (P2 & _ & C2 & I2 & _ & F2) & L2).
  destruct (on_run Click ".scrollto" ScrolltoClick true w2 eq_refl)
    as (w3 & E3 & (P3 & _ & C3 & I3 & _ & F3) & L3).
  exists w3. split.
  { erewrite bind_run by exact E1. erewrite bind_run by exact E2. exact E3. }
  rewrite F3, F2, F1, C3, C2, C1, I3, I2, I1, L3, L2, L1, P2, P1.
  unfold on_targets. trim_literals. split_and!; try done.
  by rewrite <- !app_assoc.
Qed.

Lemma initScrollFunctions_run w :
  exists w', initScrollFunctions w = (w', Ok tt) /\
    page w' = page w /\ scrollY w' = scrollY w /\ classList w' = classList w /\
    listeners w' =
      listeners w ++ scrollListenersOf (querySelectorAll (page w) "#navbar .scrollto").
Proof.
  unfold initScrollFunctions. js_run. eexists. split; [reflexivity|].
  split_and!; try done. cbn. by rewrite <- !app_assoc.
Qed.

(** X8. From initialization to the event.  On a window without scroll
    listeners of its own, after [initScrollFunctions] a scroll event at
    offset [y] runs a round over the navigation links of the navbar.
    Every link the round gets past that has a section, and is not
    itself the back-to-top element, is active afterwards exactly when
    [y + 200] lies in the section's span.  When every non-empty hash is
    a selector the round gets past every link and nothing is reported.
    Otherwise the [SyntaxError] of the first other hash is reported,
    and the links from there on keep the marker they had. *)
Theorem scroll_event_marks_links (w : World) :
  List.filter (listens Scroll Window) (listeners w) = [] ->
  exists w1 w2,
    initScrollFunctions w = (w1, Ok tt) /\
    dispatchEvent Scroll Window w1 = (w2, Ok true) /\
    let links := querySelectorAll (page w) "#navbar .scrollto" in
    (forall link section,
       link ∈ reached (page w) links ->
       target_section (page w) link = Some section ->
       querySelector (page w) ".back-to-top" <> Some link ->
       "active" ∈ classList w2 link <-> in_span (page w) (scrollY w + 200) section) /\
    (first_malformed (page w) links = None ->
       reached (page w) links = links /\ effects w2 = effects w1) /\
    (forall sel,
       first_malformed (page w) links = Some sel ->
       effects w2 = effects w1 ++ [ReportError (SyntaxError sel)] /\
       forall link,
         link ∉ reached (page w) links ->
         querySelector (page w) ".back-to-top" <> Some link ->
         "active" ∈ classList w2 link <-> "active" ∈ classList w link).
Proof.
  intros Hnone.
  destruct (initScrollFunctions_run w) as (w1 & E1 & P1 & Y1 & C1 & L1).
  cbv zeta. set (links := querySelectorAll (page w) "#navbar .scrollto") in *.
  assert (Hls : List.filter (listens Scroll Window) (listeners w1) = scrollListenersOf links).
  { by rewrite L1, List.filter_app, Hnone. }
  destruct (dispatchEvent_scroll w1 links Hls) as (w2 & E2 & _ & Heff & Hcl).
  rewrite P1, Y1, C1 in Hcl. rewrite P1 in Heff.
  unfold decided_by_toggleBacktotop, decided_by_headerScrolled in Hcl.
  exists w1, w2. split; [exact E1|]. split; [exact E2|]. split_and!.
  - intros link section Hin Hsec Hnot.
    rewrite Hcl, decide_False by (intros [? _]; done).
    rewrite decide_False by (intros [[_ ?]|[_ ?]]; done).
    rewrite decide_True by done.
    rewrite elem_of_marked, Hsec. by rewrite decide_True.
  - intros Hall. split; [by apply first_malformed_reached|].
    rewrite Heff. unfold round_result. rewrite Hall. apply app_nil_r.
  - intros sel Hsel. split; [rewrite Heff; unfold round_result; by rewrite Hsel|].
    intros link Hout Hnot.
    rewrite Hcl, decide_False by (intros [? _]; done).
    rewrite decide_False by (intros [[_ ?]|[_ ?]]; done).
    by rewrite decide_False.
Qed.

Lemma scroll_event_marks_links_witness :
  (exists w1 w2,
     initScrollFunctions demoWorld = (w1, Ok tt) /\
     dispatchEvent Scroll Window w1 = (w2, Ok true) /\
     ("active" ∈ classList w2 4%nat <-> in_span (page demoWorld) (250 + 200) 6%nat)) /\
  (exists w1 w2,
     initScrollFunctions strayWorld = (w1, Ok tt) /\
     dispatchEvent Scroll Window w1 = (w2, Ok true) /\
     effects w2 = effects w1 ++ [ReportError (SyntaxError "#/about")]).
Proof.
  split.
  - destruct (scroll_event_marks_links demoWorld eq_refl) as (w1 & w2 & E1 & E2 & H & _).
    exists w1, w2. split; [exact E1|]. split; [exact E2|].
    apply (H 4%nat 6%nat); [vm_compute; set_solver|reflexivity|discriminate].
  - destruct (scroll_event_marks_links strayWorld eq_refl)
      as (w1 & w2 & E1 & E2 & _ & _ & H).
    exists w1, w2. split; [exact E1|]. split; [exact E2|].
    apply (H "#/about"). reflexivity.
Defined.

(** ** Repeating a listener *)

(** X9. [navbarlinksActive] writes nothing but the [active] marker of
    the links it captured, and running it again at the same offset ends
    the same way and changes nothing more.  It returns when every
    non-empty hash of a captured link is a selector. *)
Theorem navbarlinksActive_idempotent (w : World) (navbarlinks : list Node) :
  exists w1 w2 r,
    navbarlinksActive navbarlinks w = (w1, r) /\
    navbarlinksActive navbarlinks w1 = (w2, r) /\
    (forall n, classList w2 n = classList w1 n) /\
    (forall n, n ∉ navbarlinks -> classList w1 n = classList w n) /\
    (forall n c, c <> "active" -> c ∈ classList w1 n <-> c ∈ classList w n) /\
    (first_malformed (page w) navbarlinks = None -> r = Ok tt).
Proof.
  destruct (navbarlinksActive_classes navbarlinks w) as (w1 & E1 & P1 & Y1 & C1).
  destruct (navbarlinksActive_classes navbarlinks w1) as (w2 & E2 & P2 & Y2 & C2).
  rewrite P1 in E2.
  exists w1, w2, (round_result (page w) navbarlinks).
  split; [exact E1|]. split; [exact E2|]. split_and!.
  - intros n. rewrite C2, P1, Y1, C1. case_decide; [apply marked_idemp|done].
  - intros n Hn. rewrite C1, decide_False; [done|].
    intros Hin. by apply Hn, (reached_elem_of (page w)).
  - intros n c Hc. rewrite C1. case_decide; [|done].
    rewrite elem_of_marked. destruct (target_section _ _); [|done].
    by rewrite decide_False.
  - intros Hall. unfold round_result. by rewrite Hall.
Qed.

(** ** Clicking through the menu filters *)

Lemma menuFilter_click_classes w menuFilters this :
  exists w' r, menuFilter_click menuFilters this w = (w', r) /\
    page w' = page w /\
    effects w' = effects w ++ [IsotopeArrange (getAttribute (page w) this "data-filter")] /\
    forall n c, c ∈ classList w' n <->
      if decide (c = "filter-active" /\ (n ∈ menuFilters \/ n = this))
      then n = this else c ∈ classList w n.
Proof.
  unfold menuFilter_click.
  destruct (preventDefault_run w) as (w0 & E0 & P0 & C0 & F0 & _).
  erewrite bind_run by exact E0.
  erewrite bind_run by (apply forEach_fold; intros; reflexivity).
  match goal with |- context [fold_left ?f menuFilters w0] =>
    pose proof (fold_remove_frame "filter-active" menuFilters w0) as (P1 & F1 & _);
    pose proof (fold_remove_classList "filter-active" menuFilters w0) as C1;
    cbv zeta in P1, F1; set (w1 := fold_left f menuFilters w0) in *
  end.
  erewrite bind_run by reflexivity.
  erewrite bind_run by reflexivity.
  unfold widget. erewrite bind_run by reflexivity. erewrite bind_run by reflexivity.
  cbn. rewrite P1, P0, F1, F0.
  assert (forall n c,
    c ∈ upd (classList w1) this ({["filter-active"]} ∪ classList w1 this) n <->
    if decide (c = "filter-active" /\ (n ∈ menuFilters \/ n = this))
    then n = this else c ∈ classList w n) as Hcls.
  { intros n c. unfold upd. rewrite !C1, C0. repeat case_decide; set_solver. }
  destruct (widget_fails (page w) _); do 2 eexists; (split; [reflexivity|]);
    cbn; rewrite P1, P0; done.
Qed.

(** X10. The last click wins.  After clicks on two captured filter
    controls, one after the other, the second control is the only
    captured one that carries [filter-active]; no other class is
    touched, and the grid was asked to re-arrange twice, in the order of
    the clicks.  Clicking the same control again changes no class
    list. *)
Theorem menuFilter_click_last_wins (w : World) (menuFilters : list Node) (a b : Node) :
  a ∈ menuFilters ->
  b ∈ menuFilters ->
  exists w1 r1 w2 r2,
    menuFilter_click menuFilters a w = (w1, r1) /\
    menuFilter_click menuFilters b w1 = (w2, r2) /\
    (forall el, el ∈ menuFilters -> "filter-active" ∈ classList w2 el <-> el = b) /\
    (forall n c, c <> "filter-active" -> c ∈ classList w2 n <-> c ∈ classList w n) /\
    effects w2 = effects w ++
      [IsotopeArrange (getAttribute (page w) a "data-filter");
       IsotopeArrange (getAttribute (page w) b "data-filter")] /\
    (a = b -> forall n, classList w2 n = classList w1 n).
Proof.
  intros Ha Hb.
  destruct (menuFilter_click_classes w menuFilters a) as (w1 & r1 & E1 & P1 & F1 & C1).
  destruct (menuFilter_click_classes w1 menuFilters b) as (w2 & r2 & E2 & P2 & F2 & C2).
  exists w1, r1, w2, r2. split; [exact E1|]. split; [exact E2|]. split_and!.
  - intros el Hel. rewrite C2. by rewrite decide_True by auto.
  - intros n c Hc. rewrite C2, decide_False by (intros [? _]; done).
    by rewrite C1, decide_False by (intros [? _]; done).
  - by rewrite F2, F1, P1, <- app_assoc.
  - intros <- n. apply set_eq. intros c. rewrite C2. case_decide as Hd; [|done].
    destruct Hd as [-> Hn]. by rewrite C1, decide_True by auto.
Qed.

Lemma menuFilter_click_last_wins_witness :
  exists w1 r1 w2 r2,
    menuFilter_click [15%nat; 16%nat] 16%nat demoWorld = (w1, r1) /\
    menuFilter_click [15%nat; 16%nat] 15%nat w1 = (w2, r2) /\
    ("filter-active" ∈ classList w2 15%nat <-> 15%nat = 15%nat) /\
    ("filter-active" ∈ classList w2 16%nat <-> 16%nat = 15%nat) /\
    effects w2 = [IsotopeArrange (Some ".filter-starters"); IsotopeArrange (Some "*")].
Proof.
  destruct (menuFilter_click_last_wins demoWorld [15%nat; 16%nat] 16%nat 15%nat)
    as (w1 & r1 & w2 & r2 & E1 & E2 & Hsel & _ & He & _).
  - apply list_elem_of_further, list_elem_of_here.
  - apply list_elem_of_here.
  - exists w1, r1, w2, r2. split_and!; try assumption.
    + apply Hsel. apply list_elem_of_here.
    + apply Hsel. apply list_elem_of_further, list_elem_of_here.
Defined.

(** ** The carousel indicators, further *)

Lemma tokenize_from_app_Data a b out :
  tokenize_from Data a = (out, Data) ->
  tokenize (a +:+ b) = out ++ tokenize b.
Proof.
  intros Ha. unfold tokenize. rewrite tokenize_from_app, Ha.
  by destruct (tokenize_from Data b).
Qed.

Lemma parsed_elements_app ts1 ts2 :
  parsed_elements (ts1 ++ ts2) = parsed_elements ts1 ++ parsed_elements ts2.
Proof.
  induction ts1 as [|[name attrs|name|c] ts1 IH]; cbn [app parsed_elements]; [done|..];
    by rewrite IH.
Qed.

Lemma initCarouselIndicators_run w host :
  querySelector (page w) "#hero-carousel-indicators" = Some host ->
  exists w', initCarouselIndicators w = (w', Ok tt) /\
    page w' = page w /\
    innerHTML w' host =
      innerHTML w host +:+
      indicators_from 0 (length (querySelectorAll (page w) "#heroCarousel .carousel-item")) /\
    (forall n, n <> host -> innerHTML w' n = innerHTML w n).
Proof.
  intros Hhost. unfold initCarouselIndicators.
  erewrite bind_run by reflexivity.
  erewrite bind_run by (apply select_some; exact Hhost).
  erewrite bind_run by reflexivity. cbv beta iota. trim_literals. cbn [page set_effects].
  match goal with |- context [forEach ?items _ ?w1] =>
    destruct (forEach_from_indicators host items 0 w1) as (w' & E & P & _ & _ & H & Hn) end.
  exists w'. split; [exact E|]. split; [exact P|]. split; [exact H|exact Hn].
Qed.

(** X11. The builder adds to the host and never replaces.  When the
    host's markup is complete (it does not end inside a tag), the
    elements in the host afterwards are the ones that were there,
    followed by one indicator per slide; a second run adds the
    indicators once more, so the builder is not idempotent.  The markup
    of every other element is left alone. *)
Theorem initCarouselIndicators_appends (w : World) (host : Node) :
  querySelector (page w) "#hero-carousel-indicators" = Some host ->
  snd (tokenize_from Data (innerHTML w host)) = Data ->
  let count := length (querySelectorAll (page w) "#heroCarousel .carousel-item") in
  let before := parsed_elements (tokenize (innerHTML w host)) in
  exists w1 w2,
    initCarouselIndicators w = (w1, Ok tt) /\
    initCarouselIndicators w1 = (w2, Ok tt) /\
    parsed_elements (tokenize (innerHTML w1 host)) = before ++ indicator_elements count /\
    parsed_elements (tokenize (innerHTML w2 host)) =
      before ++ indicator_elements count ++ indicator_elements count /\
    (forall n, n <> host -> innerHTML w2 n = innerHTML w n).
Proof.
  intros Hhost Hdata count before.
  destruct (initCarouselIndicators_run w host Hhost) as (w1 & E1 & P1 & H1 & N1).
  destruct (initCarouselIndicators_run w1 host) as (w2 & E2 & P2 & H2 & N2);
    [by rewrite P1|].
  rewrite P1 in H2. fold count in H1, H2.
  destruct (tokenize_from Data (innerHTML w host)) as [out st] eqn:Hold.
  cbn [snd] in Hdata. subst st.
  assert (Hbefore : before = parsed_elements out).
  { unfold before, tokenize. by rewrite Hold. }
  assert (Hinds : parsed_elements (tokenize (indicators_from 0 count))
                  = indicator_elements count) by apply parsed_elements_indicators.
  assert (Hmid : tokenize_from Data (innerHTML w1 host)
                 = (out ++ tokenize (indicators_from 0 count), Data)).
  { rewrite H1, tokenize_from_app, Hold. unfold tokenize.
    by rewrite tokenize_from_indicators. }
  exists w1, w2. split; [exact E1|]. split; [exact E2|]. split_and!.
  - unfold tokenize at 1. rewrite Hmid. cbn [fst].
    by rewrite parsed_elements_app, Hinds, Hbefore.
  - rewrite H2, (tokenize_from_app_Data _ _ _ Hmid).
    by rewrite !parsed_elements_app, Hinds, Hbefore, <- app_assoc.
  - intros n Hn. by rewrite N2, N1.
Qed.

Lemma initCarouselIndicators_appends_witness :
  exists w1 w2,
    initCarouselIndicators demoWorld = (w1, Ok tt) /\
    initCarouselIndicators w1 = (w2, Ok tt) /\
    parsed_elements (tokenize (innerHTML w1 9%nat)) = indicator_elements 3 /\
    parsed_elements (tokenize (innerHTML w2 9%nat)) =
      indicator_elements 3 ++ indicator_elements 3.
Proof.
  destruct (initCarouselIndicators_appends demoWorld 9%nat eq_refl eq_refl)
    as (w1 & w2 & E1 & E2 & H1 & H2 & _).
  exists w1, w2. split; [exact E1|]. split; [exact E2|]. split; [exact H1|exact H2].
Defined.

Lemma initCarouselIndicators_no_items w :
  querySelectorAll (page w) "#heroCarousel .carousel-item" = [] ->
  initCarouselIndicators w =
  (set_effects (effects w ++ [Enter InitCarouselIndicators]) w, Ok tt).
Proof.
  intros Hnone. unfold initCarouselIndicators. js_run. by rewrite Hnone.
Qed.

(** X12. Each indicator names its own slide.  The markup built for slide
    [i] is a single [li] element whose [data-bs-slide-to], read back as
    a decimal number, is [i]; so different slides never get the same
    indicator. *)
Theorem indicator_round_trip (i : nat) :
  (exists attrs,
     parsed_elements (tokenize (indicator i)) = [("li", attrs)] /\
     slide_index attrs = Some i) /\
  (forall j, indicator i = indicator j -> i = j).
Proof.
  assert (Hparse : forall k,
    parsed_elements (tokenize (indicator k)) = [("li", indicator_attrs k)]).
  { intros k. unfold tokenize. by rewrite tokenize_from_indicator. }
  assert (Hslide : forall k, slide_index (indicator_attrs k) = Some k).
  { intros k. unfold slide_index.
    rewrite (proj2 (indicator_attrs_slide k)). unfold toString.
    rewrite NilEmpty.usu. cbn. by rewrite DecimalNat.Unsigned.of_to. }
  split.
  - exists (indicator_attrs i). split; [apply Hparse|apply Hslide].
  - intros j Hij. pose proof (Hparse i) as Hi. rewrite Hij, Hparse in Hi.
    assert (Ha : indicator_attrs j = indicator_attrs i) by congruence.
    pose proof (Hslide j) as Hs. rewrite Ha, Hslide in Hs. by injection Hs.
Qed.

(** ** The widgets *)

Lemma widget_run call w :
  exists w', 
    widget call w =
      (w', match widget_fails (page w) call with Some e => Throw e | None => Ok tt end) /\
    page w' = page w /\ effects w' = effects w ++ [call] /\
    listeners w' = listeners w /\ classList w' = classList w.
Proof.
  unfold widget. erewrite bind_run by reflexivity. erewrite bind_run by reflexivity.
  cbn. destruct (widget_fails (page w) call); by eexists.
Qed.

(** X13. [initMenuIsotope] registers filter listeners only on a working
    grid.  Without the menu container it does nothing; when the grid
    constructor throws, the exception leaves the initializer and no
    listener is registered; otherwise the grid is built once, with the
    item selector [.menu-item] and the layout [fitRows], and every
    filter control gets a passive click listener that has captured all
    the filter controls. *)
Theorem initMenuIsotope_cases (w : World) :
  (querySelector (page w) ".menu-container" = None ->
   initMenuIsotope w = (set_effects (effects w ++ [Enter InitMenuIsotope]) w, Ok tt)) /\
  (forall container,
     querySelector (page w) ".menu-container" = Some container ->
     let build := NewIsotope container ".menu-item" "fitRows" in
     let menuFilters := querySelectorAll (page w) "#menu-flters li" in
     exists w' r, initMenuIsotope w = (w', r) /\
       effects w' = effects w ++ [Enter InitMenuIsotope; build] /\
       classList w' = classList w /\
       match widget_fails (page w) build with
       | Some e => r = Throw e /\ listeners w' = listeners w
       | None =>
           r = Ok tt /\
           listeners w' =
             listeners w ++ map (registered Click (MenuFilterClick menuFilters)) menuFilters
       end).
Proof.
  split.
  - intros Hnone. unfold initMenuIsotope. js_run. by rewrite Hnone.
  - intros container Hc build menuFilters. unfold initMenuIsotope.
    erewrite bind_run by reflexivity.
    erewrite bind_run by (apply select_some; exact Hc).
    cbv beta iota.
    match goal with |- context [bind (widget _) _ ?w0] =>
      destruct (widget_run build w0) as (w1 & E1 & P1 & F1 & L1 & C1) end.
    cbn [page set_effects effects listeners classList] in E1, P1, F1, L1, C1.
    fold build. unfold bind at 1. rewrite E1.
    destruct (widget_fails (page w) build) as [e|].
    + exists w1, (Throw e). split; [done|]. rewrite F1, <- app_assoc. by split_and!.
    + erewrite bind_run by reflexivity.
      destruct (on_run Click "#menu-flters li"
                  (MenuFilterClick (querySelectorAll (page w1) (trim "#menu-flters li"))) true w1
                  eq_refl)
        as (w2 & E2 & (P2 & _ & C2 & _ & _ & F2) & L2).
      exists w2, (Ok tt). split; [exact E2|].
      rewrite F2, F1, C2, C1, L2, L1, P1, <- app_assoc. unfold on_targets.
      trim_literals. by split_and!.
Qed.

Lemma initMenuIsotope_cases_witness :
  (exists w' r,
     initMenuIsotope demoWorld = (w', r) /\ r = Ok tt /\
     listeners w' =
       map (registered Click (MenuFilterClick [15%nat; 16%nat])) [15%nat; 16%nat]) /\
  (exists w' r e,
     initMenuIsotope (demoWorldWith [9%nat] isotopeFails) = (w', r) /\
     r = Throw e /\ listeners w' = []) /\
  initMenuIsotope bareWorld = (set_effects [Enter InitMenuIsotope] bareWorld, Ok tt).
Proof.
  split_and!.
  - destruct (proj2 (initMenuIsotope_cases demoWorld) 14%nat eq_refl)
      as (w' & r & E & _ & _ & Hr & Hl).
    exists w', r. split; [exact E|]. split; [exact Hr|exact Hl].
  - destruct (proj2 (initMenuIsotope_cases (demoWorldWith [9%nat] isotopeFails))
                14%nat eq_refl) as (w' & r & E & _ & _ & Hr & Hl).
    exists w', r, (WidgetError "Isotope is not defined").
    split; [exact E|]. split; [exact Hr|exact Hl].
  - apply (proj1 (initMenuIsotope_cases bareWorld)). reflexivity.
Defined.

(** X14. [initSwipers] builds the events slider first and the
    testimonials slider second, both with the same options.  When the
    first construction throws, the second slider is never built; the
    initializer returns exactly when both constructions do, and it
    registers no listener and touches no class list. *)
Theorem initSwipers_order (w : World) :
  let first := NewSwiper ".events-slider" sliderOptions in
  let second := NewSwiper ".testimonials-slider" sliderOptions in
  exists w' r, initSwipers w = (w', r) /\
    listeners w' = listeners w /\ classList w' = classList w /\
    effects w' = effects w ++ [Enter InitSwipers; first] ++
      match widget_fails (page w) first with Some _ => [] | None => [second] end /\
    (r = Ok tt <-> swipers_ready (page w)).
Proof.
  intros first second. unfold initSwipers, swipers_ready.
  erewrite bind_run by reflexivity.
  match goal with |- context [bind (widget _) _ ?w0] =>
    destruct (widget_run first w0) as (w1 & E1 & P1 & F1 & L1 & C1) end.
  cbn [page set_effects effects listeners classList] in E1, P1, F1, L1, C1.
  fold first second. unfold bind at 1. rewrite E1.
  destruct (widget_fails (page w) first) as [e1|] eqn:H1.
  - exists w1, (Throw e1). split; [done|]. rewrite F1, <- app_assoc.
    split_and!; try done. split; [done|]. by intros [? _].
  - destruct (widget_run second w1) as (w2 & E2 & P2 & F2 & L2 & C2).
    rewrite P1 in E2. eexists w2, _. split; [exact E2|].
    rewrite F2, F1, L2, L1, C2, C1, <- !app_assoc. split_and!; try done.
    destruct (widget_fails (page w) second); split; try done; by intros [_ ?].
Qed.

(** ** When the load listener completes *)

Lemma returns_iff_bind m1 m2 ready1 ready2 :
  returns_iff m1 ready1 -> returns_iff m2 ready2 ->
  returns_iff (m1 ;; m2) (fun p => ready1 p /\ ready2 p).
Proof.
  intros H1 H2 w. destruct (H1 w) as (w1 & r1 & E1 & P1 & R1).
  unfold bind. rewrite E1. destruct r1 as [[]|e].
  - destruct (H2 w1) as (w2 & r2 & E2 & P2 & R2). exists w2, r2.
    split; [exact E2|]. split; [congruence|]. rewrite R2, P1. tauto.
  - exists w1, (Throw e). split; [done|]. split; [done|].
    split; [done|]. intros [Hr _]. by apply R1 in Hr.
Qed.

Lemma returns_iff_impl m ready ready' :
  (forall p, ready p <-> ready' p) -> returns_iff m ready -> returns_iff m ready'.
Proof.
  intros Hiff H w. destruct (H w) as (w' & r & E & P & R).
  exists w', r. split; [done|]. split; [done|]. by rewrite R.
Qed.

Lemma initNavbar_returns : returns_iff initNavbar (fun _ => True).
Proof.
  intros w. unfold initNavbar. erewrite bind_run by reflexivity.
  match goal with |- context [bind (on _ _ _ _) _ ?w0] =>
    destruct (on_run Click ".mobile-nav-toggle" MobileNavToggleClick false w0 eq_refl)
      as (w1 & E1 & (P1 & _) & _) end.
  destruct (on_run Click ".navbar .dropdown > a" DropdownClick true w1 eq_refl)
    as (w2 & E2 & (P2 & _) & _).
  destruct (on_run Click ".scrollto" ScrolltoClick true w2 eq_refl)
    as (w3 & E3 & (P3 & _) & _).
  exists w3, (Ok tt). split.
  { erewrite bind_run by exact E1. erewrite bind_run by exact E2. exact E3. }
  split; [by rewrite P3, P2, P1|done].
Qed.

Lemma initScrollFunctions_returns : returns_iff initScrollFunctions (fun _ => True).
Proof.
  intros w. destruct (initScrollFunctions_run w) as (w' & E & P & _).
  by exists w', (Ok tt).
Qed.

Lemma initCarouselIndicators_returns : returns_iff initCarouselIndicators carousel_ready.
Proof.
  intros w. unfold carousel_ready.
  destruct (querySelector (page w) "#hero-carousel-indicators") as [host|] eqn:Hhost.
  - destruct (initCarouselIndicators_run w host Hhost) as (w' & E & P & _).
    exists w', (Ok tt). split; [done|]. split; [done|]. split; [|done]. by left.
  - destruct (querySelectorAll (page w) "#heroCarousel .carousel-item")
      as [|item items] eqn:Hitems.
    + rewrite initCarouselIndicators_no_items by done.
      do 2 eexists. split; [reflexivity|]. split; [done|]. split; [|done]. by right.
    + unfold initCarouselIndicators. erewrite bind_run by reflexivity.
      erewrite bind_run by (apply select_none; [reflexivity|exact Hhost]).
      erewrite bind_run by reflexivity. cbv beta iota. trim_literals.
      cbn [page set_effects]. rewrite Hitems.
      do 2 eexists. split; [reflexivity|]. split; [done|].
      split; [done|]. by intros [?|?].
Qed.

Lemma initMenuIsotope_returns : returns_iff initMenuIsotope menu_ready.
Proof.
  intros w. unfold menu_ready, initMenuIsotope.
  erewrite bind_run by reflexivity. erewrite bind_run by reflexivity.
  unfold selectors.menuContainer. trim_literals. cbn [page set_effects].
  destruct (querySelector (page w) ".menu-container") as [c|].
  - match goal with |- context [bind (widget ?call) _ ?w0] =>
      destruct (widget_run call w0) as (w1 & E1 & P1 & _) end.
    unfold bind at 1. rewrite E1. cbn [page set_effects] in *.
    destruct (widget_fails (page w) _) as [e|] eqn:Hf.
    + exists w1, (Throw e). split; [done|]. split; [done|]. split; [done|].
      intros H. specialize (H c eq_refl). congruence.
    + erewrite bind_run by reflexivity.
      match goal with |- context [on ?ty ?el ?h ?all w1] =>
        destruct (on_run ty el h all w1 eq_refl) as (w2 & E2 & (P2 & _) & _) end.
      exists w2, (Ok tt). split; [done|]. split; [congruence|].
      split; [|done]. by intros _ c' [= <-].
  - do 2 eexists. split; [reflexivity|]. split; [done|]. split; [|done]. by intros _ c'.
Qed.

Lemma initSwipers_returns : returns_iff initSwipers swipers_ready.
Proof.
  intros w. unfold swipers_ready, initSwipers. erewrite bind_run by reflexivity.
  match goal with |- context [bind (widget ?call) _ ?w0] =>
    destruct (widget_run call w0) as (w1 & E1 & P1 & _) end.
  unfold bind. rewrite E1. cbn [page set_effects] in *.
  destruct (widget_fails (page w) (NewSwiper ".events-slider" _)) as [e|].
  - exists w1, (Throw e). split; [done|]. split; [done|]. split; [done|]. by intros [? _].
  - match goal with |- context [widget ?call w1] =>
      destruct (widget_run call w1) as (w2 & E2 & P2 & _) end.
    rewrite E2, P1. eexists w2, _. split; [reflexivity|]. split; [congruence|].
    destruct (widget_fails (page w) _); split; try done. by intros [_ ?].
Qed.

Lemma initGLightbox_returns : returns_iff initGLightbox lightbox_ready.
Proof.
  intros w. unfold lightbox_ready, initGLightbox. erewrite bind_run by reflexivity.
  match goal with |- context [widget ?call ?w0] =>
    destruct (widget_run call w0) as (w1 & E1 & P1 & _) end.
  rewrite E1. cbn [page set_effects] in *. eexists w1, _.
  split; [reflexivity|]. split; [done|]. by destruct (widget_fails (page w) _).
Qed.

Lemma handleHashOnLoad_returns : returns_iff handleHashOnLoad fragment_ready.
Proof.
  intros w. unfold fragment_ready, fragment_target, handleHashOnLoad.
  erewrite bind_run by reflexivity.
  destruct (location_hash (page w)) as [|c h].
  { by exists w, (Ok tt). }
  destruct (valid_selector (page w) (trim (String c h))) eqn:Hv.
  - erewrite bind_run by (by apply select_run).
    destruct (querySelector (page w) (trim (String c h))) as [target|] eqn:Ht.
    + rewrite bool_decide_true by eauto.
      destruct (querySelector (page w) "#header") as [header|] eqn:Hh.
      * rewrite (scrollTo_run w _ header target Hh Ht).
        do 2 eexists. split; [reflexivity|]. split; [done|]. split; [done|]. done.
      * destruct (scrollTo_missing w (String c h)) as (w' & e & E & -> & _); [by left|].
        eexists _, (Throw e). split; [exact E|]. split; [done|].
        split; [done|]. intros [_ H]. by destruct (H eq_refl).
    + rewrite bool_decide_false by (by intros [? ?]).
      exists w, (Ok tt). by repeat split.
  - erewrite bind_throw by (by apply select_throw).
    eexists w, (Throw _). split; [reflexivity|]. split; [done|].
    split; [done|]. intros [H _]. by specialize (H ltac:(done)).
Qed.

(** X15. The load listener returns, rather than throws, exactly on a
    page where: the indicator host exists or there are no slides; the
    grid constructor works wherever there is a menu container; both
    slider constructions and the lightbox work; the URL's fragment, if
    there is one, is a selector; and the header exists whenever the
    fragment selects an element.  Nothing else can make it throw. *)
Theorem onLoad_returns_iff (w : World) :
  (exists w', onLoad w = (w', Ok tt)) <-> load_ready (page w).
Proof.
  assert (H : returns_iff onLoad load_ready).
  { unfold onLoad.
    eapply returns_iff_impl;
      [|apply returns_iff_bind; [apply initNavbar_returns|];
        apply returns_iff_bind; [apply initScrollFunctions_returns|];
        apply returns_iff_bind; [apply initCarouselIndicators_returns|];
        apply returns_iff_bind; [apply initMenuIsotope_returns|];
        apply returns_iff_bind; [apply initSwipers_returns|];
        apply returns_iff_bind; [apply initGLightbox_returns|];
        apply handleHashOnLoad_returns].
    intros p. unfold load_ready. cbv beta. tauto. }
  destruct (H w) as (w' & r & E & _ & R). split.
  - intros (w'' & E'). apply R. congruence.
  - intros Hready. exists w'. apply R in Hready. by subst r.
Qed.

Lemma onLoad_returns_iff_witness :
  (exists w', onLoad demoWorld = (w', Ok tt)) /\
  ~ (exists w', onLoad (demoWorldWith [] (fun _ => None)) = (w', Ok tt)) /\
  ~ (exists w', onLoad yearWorld = (w', Ok tt)).
Proof.
  split_and!.
  - apply (proj2 (onLoad_returns_iff demoWorld)).
    split; [left; discriminate|].
    split; [intros c [= <-]; reflexivity|].
    split; [split; reflexivity|].
    split; [reflexivity|].
    split; [intros _; reflexivity|intros _; discriminate].
  - intros H. apply (proj1 (onLoad_returns_iff _)) in H as [[Hhost|Hitems] _].
    + by apply Hhost.
    + discriminate Hitems.
  - intros H. apply (proj1 (onLoad_returns_iff _)) in H as (_ & _ & _ & _ & Hv & _).
    specialize (Hv ltac:(discriminate)). discriminate Hv.
Defined.

(** ** The dropdown links, twice *)

Lemma dropdown_click_run w navbar this sibling :
  querySelector (page w) "#navbar" = Some navbar ->
  "navbar-mobile" ∈ classList w navbar ->
  nextElementSibling (page w) this = Some sibling ->
  exists w', dropdown_click this w = (w', Ok tt) /\
    page w' = page w /\ effects w' = effects w /\ listeners w' = listeners w /\
    forall n, classList w' n =
      if decide (n = sibling) then toggled "dropdown-active" (classList w sibling)
      else classList w n.
Proof.
  intros Hnav Hmobile Hsib. unfold dropdown_click.
  erewrite bind_run
    by (apply select_some; exact Hnav).
  cbv beta iota. erewrite bind_run by reflexivity.
  rewrite bool_decide_true by done.
  assert (exists w0, preventDefault w = (w0, Ok tt) /\ page w0 = page w /\
            classList w0 = classList w /\ effects w0 = effects w /\
            listeners w0 = listeners w) as (w0 & E0 & P0 & C0 & F0 & L0).
  { unfold preventDefault, modify. cbn. destruct (cancelable _ && _); by eexists. }
  erewrite bind_run by exact E0.
  erewrite bind_run by (unfold gets; rewrite P0, Hsib; reflexivity).
  cbv beta iota. rewrite classList_toggle_run. eexists. split; [reflexivity|].
  cbn. rewrite P0, F0, L0, C0. split_and!; try done.
Qed.

(** X16. In mobile mode a click on a dropdown link changes nothing but
    the [dropdown-active] marker of its submenu: it registers nothing,
    calls nothing, and leaves every other class and element alone.  A
    second click puts every class list back as it was. *)
Theorem dropdown_click_twice (w : World) (navbar this sibling : Node) :
  querySelector (page w) "#navbar" = Some navbar ->
  "navbar-mobile" ∈ classList w navbar ->
  nextElementSibling (page w) this = Some sibling ->
  exists w1 w2,
    dropdown_click this w = (w1, Ok tt) /\
    dropdown_click this w1 = (w2, Ok tt) /\
    effects w2 = effects w /\ listeners w2 = listeners w /\
    (forall n c, (n <> sibling \/ c <> "dropdown-active") ->
       c ∈ classList w1 n <-> c ∈ classList w n) /\
    ("dropdown-active" ∈ classList w1 sibling <-> "dropdown-active" ∉ classList w sibling) /\
    (forall n, classList w2 n = classList w n).
Proof.
  intros Hnav Hmobile Hsib.
  destruct (dropdown_click_run w navbar this sibling Hnav Hmobile Hsib)
    as (w1 & E1 & P1 & F1 & L1 & C1).
  assert (Hmobile1 : "navbar-mobile" ∈ classList w1 navbar).
  { rewrite C1. case_decide; [|done]. subst. rewrite elem_of_toggled. by right. }
  destruct (dropdown_click_run w1 navbar this sibling) as (w2 & E2 & P2 & F2 & L2 & C2);
    [by rewrite P1..|done|by rewrite P1|].
  exists w1, w2. split; [exact E1|]. split; [exact E2|]. split_and!.
  - by rewrite F2, F1.
  - by rewrite L2, L1.
  - intros n c Hnc. rewrite C1. case_decide; [|done]. subst n.
    rewrite elem_of_toggled. destruct Hnc; [done|]. naive_solver.
  - rewrite C1, decide_True by done. rewrite elem_of_toggled. naive_solver.
  - intros n. rewrite C2. case_decide; [|by rewrite C1, decide_False].
    subst n. rewrite C1, decide_True by done. apply set_eq. intros c.
    rewrite !elem_of_toggled.
    destruct (decide (c = "dropdown-active")) as [->|];
      [destruct (decide ("dropdown-active" ∈ classList w sibling))|]; naive_solver.
Qed.

Lemma dropdown_click_twice_witness :
  exists w1 w2,
    dropdown_click 7%nat demoWorld = (w1, Ok tt) /\
    dropdown_click 7%nat w1 = (w2, Ok tt) /\
    ("dropdown-active" ∈ classList w1 8%nat
     <-> "dropdown-active" ∉ classList demoWorld 8%nat) /\
    (forall n, classList w2 n = classList demoWorld n).
Proof.
  destruct (dropdown_click_twice demoWorld 2%nat 7%nat 8%nat)
    as (w1 & w2 & E1 & E2 & _ & _ & _ & Hflip & Hback).
  - reflexivity.
  - apply (bool_decide_unpack _). vm_compute. exact I.
  - reflexivity.
  - exists w1, w2. split_and!; assumption.
Defined.
